(** * Motion detection for the Scout device: a shallow embedding

    This development embeds [src/scout_arduino/motion_detect.h] (the
    [MotionDetector] class: block-wise grayscale frame differencing, the
    JPEG-size heuristic, the size filter, the cooldown and [reset]) and
    states the properties of its specification as theorems.

    Target assumptions, written out where they matter: the code is built
    for the ESP32, so [int], [size_t] and [unsigned long] are 32 bits wide,
    [float] is IEEE-754 binary32 and [double] binary64, floating-point
    expressions are evaluated in the type the C++ rules give them with
    round-to-nearest-even, and [min] / [abs] are [std::min] / [std::abs]
    as the Arduino core for the ESP32 exports them. *)

From Stdlib Require Import ZArith List Bool Lia QArith.
From Stdlib Require Import Floats.SpecFloat.
From Stdlib Require Import Strings.Byte.
Import ListNotations.

Local Open Scope Z_scope.

(** ** Fixed-width unsigned integers

    Values of [uint8_t], [uint16_t], [uint32_t] / [size_t] are integers of
    [Z]; every store into a narrower variable is written as the reduction
    the hardware performs. *)

Definition u8 (n : Z) : Z := n mod 2 ^ 8.
Definition u16 (n : Z) : Z := n mod 2 ^ 16.
Definition u32 (n : Z) : Z := n mod 2 ^ 32.

(** ** Floating point

    [float] and [double] values are [spec_float]s kept canonical for their
    format, with the operations of the Standard Library's executable IEEE-754
    specification. *)

Module F32.
Definition prec : Z := 24.
Definition emax : Z := 128.
Definition of_Z (n : Z) : spec_float := binary_normalize prec emax n 0 false.
Definition mul := SFmul prec emax.
Definition div := SFdiv prec emax.
Definition sub := SFsub prec emax.
Definition abs := SFabs.
Definition ltb := SFltb.
(** [std::min(a, b)]: [b] when [b < a], else [a]. *)
Definition min (a b : spec_float) : spec_float := if ltb b a then b else a.
(** Conversion of a [double] to [float] (rounds to nearest even). *)
Definition of_double (d : spec_float) : spec_float :=
  match d with
  | S754_finite s m e => binary_normalize prec emax (cond_Zopp s (Zpos m)) e s
  | _ => d
  end.
Definition zero : spec_float := S754_zero false.
Definition one : spec_float := of_Z 1.
Definition five : spec_float := of_Z 5.
Definition thirty : spec_float := of_Z 30.
End F32.

Module F64.
Definition prec : Z := 53.
Definition emax : Z := 1024.
Definition of_Z (n : Z) : spec_float := binary_normalize prec emax n 0 false.
Definition mul := SFmul prec emax.
Definition ltb := SFltb.
(** Promotion of a [float] to [double] (exact). *)
Definition of_float (f : spec_float) : spec_float :=
  match f with
  | S754_finite s m e => binary_normalize prec emax (cond_Zopp s (Zpos m)) e s
  | _ => f
  end.
Definition three : spec_float := of_Z 3.
Definition ten : spec_float := of_Z 10.
Definition fifty : spec_float := of_Z 50.
Definition hundred : spec_float := of_Z 100.
End F64.

(** The rational a finite float denotes ([None] for infinities and NaN),
    in lowest terms so that values can be compared with [=]. *)
Definition float_value (f : spec_float) : option Q :=
  match f with
  | S754_zero _ => Some (0 # 1)%Q
  | S754_finite s m e =>
      let n := cond_Zopp s (Zpos m) in
      Some (Qred (if 0 <=? e then inject_Z (n * 2 ^ e)
                  else Qmake n (Z.to_pos (2 ^ (- e)))))
  | _ => None
  end.

(** ** Faults and outcomes

    Operations whose behaviour C++ leaves undefined (integer division by
    zero, an access outside a buffer) end the run in a [Fault]. *)

Inductive fault : Type := DivisionByZero | OutOfBounds.

Inductive outcome (A : Type) : Type :=
| Ok (a : A)
| Fault (f : fault).
Arguments Ok {A} a.
Arguments Fault {A} f.

Definition bind {A B : Type} (m : outcome A) (k : A -> outcome B) : outcome B :=
  match m with
  | Ok a => k a
  | Fault f => Fault f
  end.

Notation "x <- m ;; k" := (bind m (fun x => k))
  (at level 61, m at next level, right associativity).

(** [buf[idx]] on a buffer of bytes. *)
Definition read (b : list byte) (idx : Z) : outcome Z :=
  if idx <? 0 then Fault OutOfBounds
  else match nth_error b (Z.to_nat idx) with
       | Some v => Ok (Z.of_N (Byte.to_N v))
       | None => Fault OutOfBounds
       end.

(** [memcpy(dst, src, n)]: the first [n] bytes of [dst] become those of
    [src]; both buffers must hold [n] bytes. *)
Definition memcpy (dst src : list byte) (n : Z) : outcome (list byte) :=
  if (n <=? Z.of_nat (length src)) && (n <=? Z.of_nat (length dst))
  then Ok (firstn (Z.to_nat n) src ++ skipn (Z.to_nat n) dst)
  else Fault OutOfBounds.

(** [for (i = start; <count> more iterations; i++) s = body(i, s)]. *)
Fixpoint for_loop {S : Type} (count : nat) (i : Z)
    (body : Z -> S -> outcome S) (s : S) : outcome S :=
  match count with
  | O => Ok s
  | Datatypes.S count' => s' <- body i s ;; for_loop count' (i + 1) body s'
  end.

(** ** Data model *)

(** [pixformat_t] of the camera driver. *)
Inductive pixformat_t : Type :=
| PIXFORMAT_RGB565 | PIXFORMAT_YUV422 | PIXFORMAT_YUV420
| PIXFORMAT_GRAYSCALE | PIXFORMAT_JPEG | PIXFORMAT_RGB888
| PIXFORMAT_RAW | PIXFORMAT_RGB444 | PIXFORMAT_RGB555.

(** [camera_fb_t]; a null [buf] is [None]. *)
Module Fb.
Record camera_fb_t : Type := {
  buf : option (list byte);
  len : Z;
  width : Z;
  height : Z;
  format : pixformat_t
}.
End Fb.
Abbreviation camera_fb_t := Fb.camera_fb_t.

Record MotionConfig : Type := {
  threshold : Z;
  minSizePercent : spec_float;
  maxSizePercent : spec_float;
  blockSize : Z;
  cooldownMs : Z
}.

Record MotionResult : Type := {
  detected : bool;
  sizeFiltered : bool;
  x : Z;
  y : Z;
  width : Z;
  height : Z;
  sizePercent : spec_float;
  changedBlocks : Z;
  totalBlocks : Z;
  confidence : spec_float
}.

(** The members of a [MotionDetector] object. *)
Record MotionDetector : Type := {
  config : MotionConfig;
  prevFrame : option (list byte);
  prevWidth : Z;
  prevHeight : Z;
  lastDetectionTime : Z
}.

(** The function-local [static] variables of [detectFromJpegSize]: they
    belong to the program, not to a detector object. *)
Record JpegStatics : Type := {
  prevJpegSize : Z;
  jpegSizeHistory : list Z;
  historyIdx : Z
}.

(** The state a call of the engine runs in. *)
Record Engine : Type := {
  this : MotionDetector;
  statics : JpegStatics
}.

(** What the collaborators answer during one call: the two readings of
    [millis()] (at the cooldown check and when a detection is accepted) and
    whether each of the two [heap_caps_malloc] requests succeeds. *)
Record Env : Type := {
  clock_entry : Z;
  clock_accept : Z;
  malloc_spiram : bool;
  malloc_internal : bool
}.

Definition millis_entry (env : Env) : Z := u32 (clock_entry env).
Definition millis_accept (env : Env) : Z := u32 (clock_accept env).

(** Lines written to [Serial], as events. *)
Inductive log_event : Type :=
| LogInvalidFrame
| LogUnsupportedFormat
| LogAllocated (size : Z)
| LogAllocFailed
| LogTooSmall (percent bound : spec_float)
| LogTooLarge (percent bound : spec_float)
| LogDetected (box_x box_y box_w box_h : Z) (percent conf : spec_float)
| LogJpegLargeChange (percent : spec_float)
| LogJpegMotion (percent conf : spec_float).

(** ** Construction, configuration and reset *)

(** The initialiser [{false, false, 0, 0, 0, 0, 0.0, 0, 0, 0.0}]. *)
Definition no_detection : MotionResult :=
  {| detected := false; sizeFiltered := false;
     x := 0; y := 0; width := 0; height := 0;
     sizePercent := F32.zero;
     changedBlocks := 0; totalBlocks := 0;
     confidence := F32.zero |}.

Definition default_config : MotionConfig :=
  {| threshold := 25;
     minSizePercent := F32.of_Z 1;
     maxSizePercent := F32.of_Z 30;
     blockSize := 16;
     cooldownMs := 2000 |}.

(** [MotionDetector::MotionDetector()]. *)
Definition MotionDetector_ctor : MotionDetector :=
  {| config := default_config;
     prevFrame := None;
     prevWidth := 0;
     prevHeight := 0;
     lastDetectionTime := 0 |}.

(** The statics as the program starts: [prevJpegSize = 0],
    [jpegSizeHistory[5] = {0}], [historyIdx = 0]. *)
Definition initial_statics : JpegStatics :=
  {| prevJpegSize := 0; jpegSizeHistory := [0; 0; 0; 0; 0]; historyIdx := 0 |}.

Definition initial_engine : Engine :=
  {| this := MotionDetector_ctor; statics := initial_statics |}.

Definition setConfig (cfg : MotionConfig) (d : MotionDetector) : MotionDetector :=
  {| config := cfg;
     prevFrame := prevFrame d;
     prevWidth := prevWidth d;
     prevHeight := prevHeight d;
     lastDetectionTime := lastDetectionTime d |}.

Definition getConfig (d : MotionDetector) : MotionConfig := config d.

(** [MotionDetector::reset()]: a member function, it reaches the members
    of the object only. *)
Definition reset (d : MotionDetector) : MotionDetector :=
  {| config := config d;
     prevFrame := None;
     prevWidth := 0;
     prevHeight := 0;
     lastDetectionTime := 0 |}.

(** [reset()] run by the program on its detector. *)
Definition engine_reset (e : Engine) : Engine :=
  {| this := reset (this e); statics := statics e |}.

Definition set_lastDetectionTime (t : Z) (d : MotionDetector) : MotionDetector :=
  {| config := config d;
     prevFrame := prevFrame d;
     prevWidth := prevWidth d;
     prevHeight := prevHeight d;
     lastDetectionTime := t |}.

Definition set_prevFrame (p : option (list byte)) (d : MotionDetector) : MotionDetector :=
  {| config := config d;
     prevFrame := p;
     prevWidth := prevWidth d;
     prevHeight := prevHeight d;
     lastDetectionTime := lastDetectionTime d |}.

(** [allocatePrevFrame(width, height)]. The old buffer, if any, is freed;
    the new one comes from SPIRAM or, failing that, from internal RAM. Its
    contents are indeterminate until the caller's [memcpy] overwrites all of
    them; they are zeros here. *)
Definition allocatePrevFrame (env : Env) (w h : Z) (d : MotionDetector)
  : MotionDetector * list log_event :=
  let size := u32 (w * h) in
  let fresh := Some (repeat x00 (Z.to_nat size)) in
  let p := if malloc_spiram env then fresh
           else if malloc_internal env then fresh
           else None in
  match p with
  | Some b =>
      ({| config := config d; prevFrame := Some b;
          prevWidth := w; prevHeight := h;
          lastDetectionTime := lastDetectionTime d |},
       [LogAllocated size])
  | None =>
      ({| config := config d; prevFrame := None;
          prevWidth := 0; prevHeight := 0;
          lastDetectionTime := lastDetectionTime d |},
       [LogAllocFailed])
  end.

(** ** The block comparison (lines 110-142 of the source) *)

(** [result.changedBlocks] and the locals [minX], [minY], [maxX], [maxY]. *)
Record scan : Type := {
  changed : Z;
  minX : Z;
  minY : Z;
  maxX : Z;
  maxY : Z
}.

(** Lines 135-139: the block ([bx], [by_]) changed. *)
Definition note_changed (bx by_ : Z) (st : scan) : scan :=
  {| changed := u32 (changed st + 1);
     minX := if bx <? minX st then bx else minX st;
     minY := if by_ <? minY st then by_ else minY st;
     maxX := if maxX st <? bx then bx else maxX st;
     maxY := if maxY st <? by_ then by_ else maxY st |}.

Section BlockDiff.
Variable cfg : MotionConfig.
Variable w : Z.
Variables cur prev : list byte.

(** Body of the innermost loop, at pixel ([px], [py]) of block
    ([bx], [by_]). *)
Definition pixel_body (bx by_ py px : Z) (blockDiff : Z) : outcome Z :=
  let idx := u32 ((by_ * blockSize cfg + py) * w + (bx * blockSize cfg + px)) in
  c <- read cur idx ;;
  p <- read prev idx ;;
  let diff := Z.abs (c - p) in
  Ok (u32 (blockDiff + diff)).

(** The two pixel loops of one block, from [blockDiff = 0]. *)
Definition block_diff (bx by_ : Z) : outcome Z :=
  let n := Z.to_nat (blockSize cfg) in
  for_loop n 0
    (fun py acc => for_loop n 0 (fun px acc' => pixel_body bx by_ py px acc') acc)
    0.

(** Body of the loop over [bx]. *)
Definition block_body (by_ bx : Z) (st : scan) : outcome scan :=
  let pixelsInBlock := u16 (blockSize cfg * blockSize cfg) in
  blockDiff <- block_diff bx by_ ;;
  if pixelsInBlock =? 0 then Fault DivisionByZero
  else
    let avgDiff := u8 (blockDiff / pixelsInBlock) in
    if threshold cfg <? avgDiff then Ok (note_changed bx by_ st) else Ok st.

Definition compare_blocks (blocksX blocksY : Z) : outcome scan :=
  for_loop (Z.to_nat blocksY) 0
    (fun by_ st => for_loop (Z.to_nat blocksX) 0 (block_body by_) st)
    {| changed := 0; minX := blocksX; minY := blocksY; maxX := 0; maxY := 0 |}.
End BlockDiff.

(** ** Assembling the result (lines 147-187) *)

Definition set_flags (det filt : bool) (r : MotionResult) : MotionResult :=
  {| detected := det; sizeFiltered := filt;
     x := x r; y := y r; width := width r; height := height r;
     sizePercent := sizePercent r;
     changedBlocks := changedBlocks r; totalBlocks := totalBlocks r;
     confidence := confidence r |}.

Definition set_confidence (c : spec_float) (r : MotionResult) : MotionResult :=
  {| detected := detected r; sizeFiltered := sizeFiltered r;
     x := x r; y := y r; width := width r; height := height r;
     sizePercent := sizePercent r;
     changedBlocks := changedBlocks r; totalBlocks := totalBlocks r;
     confidence := c |}.

(** [(a / b) * 100.0] assigned to a [float]: the quotient is a [float], the
    product with the [double] literal is a [double], the store rounds. *)
Definition percent_of (a b : spec_float) : spec_float :=
  F32.of_double (F64.mul (F64.of_float (F32.div a b)) F64.hundred).

(** The size filter of the grayscale path (lines 162-173). *)
Definition apply_size_filter (cfg : MotionConfig) (r : MotionResult)
  : MotionResult * list log_event :=
  if F32.ltb (sizePercent r) (minSizePercent cfg) then
    (set_flags false true r, [LogTooSmall (sizePercent r) (minSizePercent cfg)])
  else if F32.ltb (maxSizePercent cfg) (sizePercent r) then
    (set_flags false true r, [LogTooLarge (sizePercent r) (maxSizePercent cfg)])
  else (r, []).

(** The result as measured, before the size filter (lines 149-160):
    [detected] is set, the box and [sizePercent] are computed. *)
Definition measure (cfg : MotionConfig) (w h total : Z) (sc : scan) : MotionResult :=
  let bs := blockSize cfg in
  let rw := u16 ((maxX sc - minX sc + 1) * bs) in
  let rh := u16 ((maxY sc - minY sc + 1) * bs) in
  let totalArea := F32.mul (F32.of_Z w) (F32.of_Z h) in
  let motionArea := F32.mul (F32.of_Z rw) (F32.of_Z rh) in
  {| detected := true; sizeFiltered := false;
     x := u16 (minX sc * bs); y := u16 (minY sc * bs);
     width := rw; height := rh;
     sizePercent := percent_of motionArea totalArea;
     changedBlocks := changed sc; totalBlocks := total;
     confidence := F32.zero |}.

(** [min(1.0f, blockRatio * 5.0f)] with
    [blockRatio = (float)changedBlocks / totalBlocks]. *)
Definition block_confidence (changedBlocks totalBlocks : Z) : spec_float :=
  let blockRatio := F32.div (F32.of_Z changedBlocks) (F32.of_Z totalBlocks) in
  F32.min F32.one (F32.mul blockRatio F32.five).

Definition assemble (env : Env) (cfg : MotionConfig) (w h total : Z) (sc : scan)
    (d : MotionDetector) : MotionResult * MotionDetector * list log_event :=
  if 0 <? changed sc then
    let '(r1, log1) := apply_size_filter cfg (measure cfg w h total sc) in
    let r2 := set_confidence (block_confidence (changedBlocks r1) (totalBlocks r1)) r1 in
    if detected r2 then
      (r2, set_lastDetectionTime (millis_accept env) d,
       log1 ++ [LogDetected (x r2) (y r2) (width r2) (height r2)
                            (sizePercent r2) (confidence r2)])
    else (r2, d, log1)
  else
    ({| detected := false; sizeFiltered := false;
        x := 0; y := 0; width := 0; height := 0;
        sizePercent := F32.zero;
        changedBlocks := changed sc; totalBlocks := total;
        confidence := F32.zero |}, d, []).

(** ** The grayscale path (lines 97-187) *)

(** The stored frame the current one is compared with: present only when
    [prevFrame] is set and the stored dimensions are those of the frame
    (the negation of the test of line 102). *)
Definition baseline (d : MotionDetector) (w h : Z) : option (list byte) :=
  match prevFrame d with
  | Some p => if (prevWidth d =? w) && (prevHeight d =? h) then Some p else None
  | None => None
  end.

Definition detect_grayscale (env : Env) (f : camera_fb_t) (data : list byte)
    (e : Engine) : outcome (MotionResult * Engine * list log_event) :=
  let d := this e in
  let cfg := config d in
  let w := u16 (Fb.width f) in
  let h := u16 (Fb.height f) in
  let frameSize := u32 (w * h) in
  match baseline d w h with
  | None =>
      (* First frame - just store it *)
      let '(d1, log) := allocatePrevFrame env w h d in
      match prevFrame d1 with
      | Some p =>
          p' <- memcpy p data frameSize ;;
          Ok (no_detection,
              {| this := set_prevFrame (Some p') d1; statics := statics e |}, log)
      | None =>
          Ok (no_detection, {| this := d1; statics := statics e |}, log)
      end
  | Some prev =>
      if blockSize cfg =? 0 then Fault DivisionByZero
      else
        let blocksX := u16 (w / blockSize cfg) in
        let blocksY := u16 (h / blockSize cfg) in
        let total := u32 (blocksX * blocksY) in
        sc <- compare_blocks cfg w data prev blocksX blocksY ;;
        prev' <- memcpy prev data frameSize ;;
        let '(r, d', log) := assemble env cfg w h total sc (set_prevFrame (Some prev') d) in
        Ok (r, {| this := d'; statics := statics e |}, log)
  end.

(** ** The JPEG-size heuristic (lines 194-257) *)

(** [a[i] = v]. *)
Fixpoint array_set (a : list Z) (i : nat) (v : Z) : list Z :=
  match a, i with
  | [], _ => []
  | _ :: t, O => v :: t
  | h :: t, Datatypes.S i' => h :: array_set t i' v
  end.

(** The loop of lines 208-213 over the entries of the history, returning
    [avgSize] (still the sum) and [validCount]. *)
Definition sum_valid (hist : list Z) : Z * Z :=
  fold_left (fun '(avgSize, validCount) h =>
               if 0 <? h then (u32 (avgSize + h), validCount + 1)
               else (avgSize, validCount))
            hist (0, 0).

(** Line 223: [abs((float)len - (float)avgSize) / (float)avgSize * 100.0],
    stored in the [float] [sizeDiff]. *)
Definition jpeg_deviation (len avgSize : Z) : spec_float :=
  percent_of (F32.abs (F32.sub (F32.of_Z len) (F32.of_Z avgSize)))
             (F32.of_Z avgSize).

Definition set_statics (st : JpegStatics) (e : Engine) : Engine :=
  {| this := this e; statics := st |}.

Definition detectFromJpegSize (env : Env) (f : camera_fb_t) (e : Engine)
  : outcome (MotionResult * Engine * list log_event) :=
  let st := statics e in
  let len := Fb.len f in
  if (historyIdx st <? 0) || (5 <=? historyIdx st) then Fault OutOfBounds
  else
    (* Store in history *)
    let hist := array_set (jpegSizeHistory st) (Z.to_nat (historyIdx st)) len in
    let idx := Z.rem (historyIdx st + 1) 5 in
    (* Calculate average size *)
    let '(sum, validCount) := sum_valid hist in
    let avgSize := if 0 <? validCount then sum / validCount else sum in
    let st' := {| prevJpegSize := len; jpegSizeHistory := hist; historyIdx := idx |} in
    (* First few frames - just collect history *)
    if (prevJpegSize st =? 0) || (validCount <? 3) then
      Ok (no_detection, set_statics st' e, [])
    else
      let sizeDiff := jpeg_deviation len avgSize in
      if F64.ltb F64.ten (F64.of_float sizeDiff) then
        let r0 :=
          {| detected := true; sizeFiltered := false;
             x := u16 (Fb.width f / 4); y := u16 (Fb.height f / 4);
             width := u16 (Fb.width f / 2); height := u16 (Fb.height f / 2);
             sizePercent := sizeDiff;
             changedBlocks := 0; totalBlocks := 0;
             confidence := F32.min F32.one (F32.div sizeDiff F32.thirty) |} in
        (* Apply size filter (approximate) *)
        let '(r, log1) :=
          if F64.ltb (F64.of_float sizeDiff) F64.three then
            (set_flags false true r0, [])
          else if F64.ltb F64.fifty (F64.of_float sizeDiff) then
            (set_flags false true r0, [LogJpegLargeChange sizeDiff])
          else (r0, []) in
        if detected r then
          Ok (r,
              {| this := set_lastDetectionTime (millis_accept env) (this e);
                 statics := st' |},
              log1 ++ [LogJpegMotion sizeDiff (confidence r)])
        else Ok (r, set_statics st' e, log1)
      else Ok (no_detection, set_statics st' e, []).

(** ** [MotionDetector::detect] *)

(** The cooldown test of line 80, in unsigned 32-bit arithmetic. *)
Definition cooldown_active (env : Env) (d : MotionDetector) : bool :=
  u32 (millis_entry env - lastDetectionTime d) <? cooldownMs (config d).

Definition detect (env : Env) (frame : option camera_fb_t) (e : Engine)
  : outcome (MotionResult * Engine * list log_event) :=
  let result := no_detection in
  match frame with
  | None => Ok (result, e, [LogInvalidFrame])
  | Some f =>
      match Fb.buf f with
      | None => Ok (result, e, [LogInvalidFrame])
      | Some data =>
          if Fb.len f =? 0 then Ok (result, e, [LogInvalidFrame])
          else if cooldown_active env (this e) then Ok (result, e, [])
          else
            match Fb.format f with
            | PIXFORMAT_JPEG => detectFromJpegSize env f e
            | PIXFORMAT_GRAYSCALE => detect_grayscale env f data e
            | _ => Ok (result, e, [LogUnsupportedFormat])
            end
      end
  end.

(** What a call of the heuristic shows of itself: its result, the statics
    it leaves and its log lines. *)
Definition heuristic_view (o : outcome (MotionResult * Engine * list log_event))
  : outcome (MotionResult * JpegStatics * list log_event) :=
  match o with
  | Ok (r, e', log) => Ok (r, statics e', log)
  | Fault x => Fault x
  end.

(** The stored frame holds the stored dimensions. *)
Definition baseline_fits (d : MotionDetector) : Prop :=
  match prevFrame d with
  | Some p => prevWidth d * prevHeight d <= Z.of_nat (length p)
  | None => True
  end.

(** ** Running several calls *)

(** One call after the other, each with the answers of its environment;
    the results are collected in order. *)
Fixpoint detect_all (calls : list (Env * option camera_fb_t)) (e : Engine)
  : outcome (list MotionResult * Engine) :=
  match calls with
  | [] => Ok ([], e)
  | (env, frame) :: rest =>
      out <- detect env frame e ;;
      let '(r, e1, _) := out in
      tl <- detect_all rest e1 ;;
      let '(rs, e2) := tl in
      Ok (r :: rs, e2)
  end.

(** ** The specification's vocabulary for the block comparison *)

(** The indices [0 .. n-1]. *)
Definition range (n : Z) : list Z := map Z.of_nat (seq 0 (Z.to_nat n)).

Definition zsum (f : Z -> Z) (l : list Z) : Z :=
  fold_right (fun i acc => f i + acc) 0 l.

(** The value of pixel [i] of a buffer. *)
Definition pixel (b : list byte) (i : Z) : Z :=
  Z.of_N (Byte.to_N (nth (Z.to_nat i) b x00)).

(** The blocks of the grid, row by row. *)
Definition grid (blocksX blocksY : Z) : list (Z * Z) :=
  flat_map (fun by_ => map (fun bx => (bx, by_)) (range blocksX)) (range blocksY).

Section BlockSpec.
Variables bs w : Z.
Variables cur prev : list byte.

(** Sum of the absolute differences over the [bs * bs] pixels of block
    ([bx], [by_]) of two row-major frames of width [w]. *)
Definition block_abs_diff_sum (bx by_ : Z) : Z :=
  zsum (fun py =>
          zsum (fun px =>
                  let i := (by_ * bs + py) * w + (bx * bs + px) in
                  Z.abs (pixel cur i - pixel prev i))
               (range bs))
       (range bs).

(** The mean absolute pixel difference of a block, as the specification
    words it: a rational number. *)
Definition mean_abs_diff (bx by_ : Z) : Q :=
  Qmake (block_abs_diff_sum bx by_) (Z.to_pos (bs * bs)).

(** The mean the code compares with the threshold: the integer quotient. *)
Definition truncated_mean (bx by_ : Z) : Z :=
  block_abs_diff_sum bx by_ / (bs * bs).

(** A block changed, in the words of the specification. *)
Definition mean_exceeds (t : Z) (b : Z * Z) : bool :=
  match Qcompare (inject_Z t) (mean_abs_diff (fst b) (snd b)) with
  | Lt => true
  | _ => false
  end.

(** A block changed, as the code decides it. *)
Definition truncated_mean_exceeds (t : Z) (b : Z * Z) : bool :=
  t <? truncated_mean (fst b) (snd b).

(** The scan of the whole grid, block after block. *)
Definition scan_grid (t blocksX blocksY : Z) : scan :=
  fold_left (fun st b =>
               if truncated_mean_exceeds t b
               then note_changed (fst b) (snd b) st else st)
            (grid blocksX blocksY)
            {| changed := 0; minX := blocksX; minY := blocksY;
               maxX := 0; maxY := 0 |}.
End BlockSpec.

(** ** Frames and environments used in examples *)

Definition gray_frame (w h : Z) (data : list byte) : camera_fb_t :=
  {| Fb.buf := Some data; Fb.len := Z.of_nat (length data);
     Fb.width := w; Fb.height := h; Fb.format := PIXFORMAT_GRAYSCALE |}.

(** An encoded frame of [n] bytes; the heuristic never reads them. *)
Definition jpeg_frame (w h n : Z) : camera_fb_t :=
  {| Fb.buf := Some (repeat x00 (Z.to_nat n)); Fb.len := n;
     Fb.width := w; Fb.height := h; Fb.format := PIXFORMAT_JPEG |}.

(** The clock reads [t] throughout the call and memory is available. *)
Definition at_time (t : Z) : Env :=
  {| clock_entry := t; clock_accept := t;
     malloc_spiram := true; malloc_internal := true |}.

(** A [w * h] frame of value [v] inside the block ([bx], [by_]) of side
    [bs] and [0] elsewhere. *)
Definition one_block_frame (w h bs bx by_ : Z) (v : byte) : list byte :=
  map (fun i =>
         let row := i / w in
         let col := i mod w in
         if (row / bs =? by_) && (col / bs =? bx) then v else x00)
      (range (w * h)).

Definition black64 : list byte := repeat x00 4096.

(** A 16 x 16 frame: the upper half at 26, the lower half at 25. *)
Definition half_step_frame : list byte := repeat x1a 128 ++ repeat x19 128.
Definition black16 : list byte := repeat x00 256.

(** A detector whose baseline is the frame [data] of [w * h] pixels and
    whose cooldown timestamp is [0]. *)
Definition engine_with_baseline (cfg : MotionConfig) (w h : Z) (data : list byte)
  : Engine :=
  {| this := {| config := cfg; prevFrame := Some data;
                prevWidth := w; prevHeight := h; lastDetectionTime := 0 |};
     statics := initial_statics |}.

Definition config_with_blockSize (bs : Z) : MotionConfig :=
  {| threshold := threshold default_config;
     minSizePercent := minSizePercent default_config;
     maxSizePercent := maxSizePercent default_config;
     blockSize := bs;
     cooldownMs := cooldownMs default_config |}.

(** The engine after the calls [calls], started from [e] (unchanged if a
    call faults). *)
Definition engine_after (calls : list (Env * option camera_fb_t)) (e : Engine)
  : Engine :=
  match detect_all calls e with
  | Ok (_, e') => e'
  | Fault _ => e
  end.

(** Three encoded frames of 1000 bytes seen by a new program. *)
Definition warm_engine : Engine :=
  engine_after [(at_time 3000, Some (jpeg_frame 640 480 1000));
                (at_time 4000, Some (jpeg_frame 640 480 1000));
                (at_time 5000, Some (jpeg_frame 640 480 1000))]
               initial_engine.

(** Four encoded frames of 995 bytes seen by a new program. *)
Definition steady_engine : Engine :=
  engine_after [(at_time 3000, Some (jpeg_frame 640 480 995));
                (at_time 4000, Some (jpeg_frame 640 480 995));
                (at_time 5000, Some (jpeg_frame 640 480 995));
                (at_time 6000, Some (jpeg_frame 640 480 995))]
               initial_engine.

(** The default configuration with blocks of side 2, an 8 x 8 black
    baseline and a frame with the block (1, 2) at value 100. *)
Definition small_config : MotionConfig := config_with_blockSize 2.
Definition black8 : list byte := repeat x00 64.
Definition small_engine : Engine := engine_with_baseline small_config 8 8 black8.
Definition small_frame : camera_fb_t :=
  gray_frame 8 8 (one_block_frame 8 8 2 1 2 x64).

(** A 256 x 256 black frame and a detector with blocks of side 256. *)
Definition black256 : list byte := repeat x00 (Z.to_nat 65536).
Definition wide_block_engine : Engine :=
  engine_with_baseline (config_with_blockSize 256) 256 256 black256.

(** ** Invariants of the engine *)

(** The history is the five-entry array and the cursor points into it. *)
Definition statics_wf (st : JpegStatics) : Prop :=
  length (jpegSizeHistory st) = 5%nat /\ 0 <= historyIdx st < 5.

(** The detector can run a comparison without a fault: a block side whose
    square fits 16 bits, and a buffer that holds the stored dimensions. *)
Definition engine_wf (e : Engine) : Prop :=
  0 < blockSize (config (this e)) /\
  blockSize (config (this e)) * blockSize (config (this e)) < 65536 /\
  baseline_fits (this e) /\
  statics_wf (statics e).

(** A grayscale frame's buffer holds [width * height] bytes (the widths as
    the code reads them, in 16 bits). *)
Definition frame_holds_pixels (frame : option camera_fb_t) : Prop :=
  match frame with
  | Some f =>
      match Fb.buf f, Fb.format f with
      | Some data, PIXFORMAT_GRAYSCALE =>
          u16 (Fb.width f) * u16 (Fb.height f) <= Z.of_nat (length data)
      | _, _ => True
      end
  | None => True
  end.

(** The all-false result of a comparison of [total] blocks. *)
Definition steady_result (total : Z) : MotionResult :=
  {| detected := false; sizeFiltered := false;
     x := 0; y := 0; width := 0; height := 0;
     sizePercent := F32.zero;
     changedBlocks := 0; totalBlocks := total;
     confidence := F32.zero |}.

(** A float that is not NaN, not negative and not above 1. *)
Definition in_unit_interval (v : spec_float) : Prop :=
  v <> S754_nan /\ F32.ltb v F32.zero = false /\ F32.ltb F32.one v = false.

(** An 8 x 8 frame after a 4 x 4 one: a change of dimensions. *)
Definition black4 : list byte := repeat x00 16.
Definition engine_4x4 : Engine := engine_with_baseline small_config 4 4 black4.

(** A new detector given the configuration with blocks of side 2. *)
Definition small_fresh_engine : Engine :=
  {| this := setConfig small_config MotionDetector_ctor;
     statics := initial_statics |}.

(** The box kept in a scan state against the changed blocks [m] seen so
    far: untouched while there is none, then covering all of them with
    each side resting on one of them. *)
Definition box_of (blocksX blocksY : Z) (m : list (Z * Z)) (st : scan) : Prop :=
  (m = [] /\ minX st = blocksX /\ minY st = blocksY /\
   maxX st = 0 /\ maxY st = 0)
  \/
  (m <> [] /\
   (forall b, In b m -> minX st <= fst b <= maxX st /\
                        minY st <= snd b <= maxY st) /\
   (exists b, In b m /\ fst b = minX st) /\
   (exists b, In b m /\ fst b = maxX st) /\
   (exists b, In b m /\ snd b = minY st) /\
   (exists b, In b m /\ snd b = maxY st)).

(** The five lengths the history holds, oldest first: the entries read
    from the cursor on, around the array. *)
Definition window_of (st : JpegStatics) : list Z :=
  map (fun k => nth (Z.to_nat ((historyIdx st + k) mod 5)) (jpegSizeHistory st) 0)
      [0; 1; 2; 3; 4].

(** Statics in the middle of a stream: cursor at 2, five lengths stored. *)
Definition busy_statics : JpegStatics :=
  {| prevJpegSize := 1040;
     jpegSizeHistory := [1030; 1040; 1010; 1000; 1020];
     historyIdx := 2 |}.
Definition busy_engine : Engine :=
  {| this := MotionDetector_ctor; statics := busy_statics |}.

(** Statics whose history holds 1000 three times. *)
Definition even_statics : JpegStatics :=
  {| prevJpegSize := 1000;
     jpegSizeHistory := [1000; 1000; 1000; 0; 0];
     historyIdx := 3 |}.
Definition even_engine : Engine :=
  {| this := MotionDetector_ctor; statics := even_statics |}.

(** The sign of a float is [s], if it has one. *)
Definition sign_is (s : bool) (v : spec_float) : Prop :=
  match v with
  | S754_zero s' | S754_infinity s' | S754_finite s' _ _ => s' = s
  | S754_nan => True
  end.

(** A short stream: an invalid frame, two grayscale frames of 8 x 8, an
    encoded frame, a grayscale frame of 4 x 4 and an unsupported format. *)
Definition mixed_stream : list (Env * option camera_fb_t) :=
  [(at_time 2500, None);
   (at_time 3000, Some (gray_frame 8 8 black8));
   (at_time 3100, Some small_frame);
   (at_time 9000, Some (jpeg_frame 640 480 1000));
   (at_time 9100, Some (gray_frame 4 4 black4));
   (at_time 9200, Some {| Fb.buf := Some black4; Fb.len := 16; Fb.width := 2;
                          Fb.height := 2; Fb.format := PIXFORMAT_RGB565 |})].

(** A 257 x 257 black frame and a detector with blocks of side 257. *)
Definition black257 : list byte := repeat x00 (Z.to_nat 66049).
Definition odd_block_engine : Engine :=
  engine_with_baseline (config_with_blockSize 257) 257 257 black257.

(** * Properties *)

(** A branch that returned: the equation [H : Ok _ = Ok (r, e', log)] names
    its result; what remains holds by computation or by hypothesis. *)
Ltac returned H :=
  inversion H; subst; first [reflexivity | assumption | discriminate].

(** ** Fixed-width arithmetic *)

Lemma u32_range n : 0 <= u32 n < 2 ^ 32.
Proof. unfold u32. apply Z.mod_pos_bound. lia. Qed.

Lemma u32_small n : 0 <= n < 2 ^ 32 -> u32 n = n.
Proof. intros H. unfold u32. apply Z.mod_small. exact H. Qed.

Lemma u32_idem n : u32 (u32 n) = u32 n.
Proof. apply u32_small, u32_range. Qed.

Lemma u16_range n : 0 <= u16 n < 2 ^ 16.
Proof. unfold u16. apply Z.mod_pos_bound. lia. Qed.

Lemma u16_small n : 0 <= n < 2 ^ 16 -> u16 n = n.
Proof. intros H. unfold u16. apply Z.mod_small. exact H. Qed.

Lemma u8_small n : 0 <= n < 2 ^ 8 -> u8 n = n.
Proof. intros H. unfold u8. apply Z.mod_small. exact H. Qed.

(** ** The cooldown timestamp *)

Lemma assemble_lastDetectionTime env cfg w h total sc d r d' log :
  assemble env cfg w h total sc d = (r, d', log) ->
  lastDetectionTime d' =
    if detected r then millis_accept env else lastDetectionTime d.
Proof.
  unfold assemble. intros H.
  destruct (0 <? changed sc).
  - destruct (apply_size_filter cfg (measure cfg w h total sc)) as [r1 log1].
    destruct (detected (set_confidence _ r1)) eqn:D;
      inversion H; subst; rewrite D; reflexivity.
  - returned H.
Qed.

Lemma allocatePrevFrame_lastDetectionTime env w h d :
  lastDetectionTime (fst (allocatePrevFrame env w h d)) = lastDetectionTime d.
Proof.
  unfold allocatePrevFrame.
  destruct (malloc_spiram env); [reflexivity|].
  destruct (malloc_internal env); reflexivity.
Qed.

Lemma detect_grayscale_lastDetectionTime env f data e r e' log :
  detect_grayscale env f data e = Ok (r, e', log) ->
  lastDetectionTime (this e') =
    if detected r then millis_accept env else lastDetectionTime (this e).
Proof.
  unfold detect_grayscale. intros H.
  destruct (baseline (this e) _ _) as [prev|].
  - destruct (blockSize (config (this e)) =? 0); [discriminate|].
    destruct (compare_blocks _ _ _ _ _ _) as [sc|]; [|discriminate].
    cbn [bind] in H.
    destruct (memcpy prev data _) as [prev'|]; [|discriminate].
    cbn [bind] in H.
    destruct (assemble _ _ _ _ _ _ _) as [[r0 d0] log0] eqn:A.
    inversion H; subst. cbn [this].
    rewrite (assemble_lastDetectionTime _ _ _ _ _ _ _ _ _ _ A). reflexivity.
  - pose proof (allocatePrevFrame_lastDetectionTime env
                  (u16 (Fb.width f)) (u16 (Fb.height f)) (this e)) as L.
    destruct (allocatePrevFrame _ _ _ _) as [d1 log1]. cbn [fst] in L.
    destruct (prevFrame d1) as [p|].
    + destruct (memcpy p data _) as [p'|]; [|discriminate].
      cbn [bind] in H. inversion H; subst. cbn. exact L.
    + inversion H; subst. cbn. exact L.
Qed.

Lemma detectFromJpegSize_lastDetectionTime env f e r e' log :
  detectFromJpegSize env f e = Ok (r, e', log) ->
  lastDetectionTime (this e') =
    if detected r then millis_accept env else lastDetectionTime (this e).
Proof.
  unfold detectFromJpegSize. intros H.
  destruct (_ || _); [discriminate|].
  destruct (sum_valid _) as [sum validCount].
  destruct (_ || _).
  { returned H. }
  destruct (F64.ltb F64.ten _).
  2:{ returned H. }
  destruct (F64.ltb _ F64.three).
  { cbn in H. returned H. }
  destruct (F64.ltb F64.fifty _).
  { cbn in H. returned H. }
  cbn in H. returned H.
Qed.

(** ** Early returns of [detect] *)

Lemma detect_null_frame env e :
  detect env None e = Ok (no_detection, e, [LogInvalidFrame]).
Proof. reflexivity. Qed.

(** Past the validity and cooldown checks, [detect] is its dispatch on the
    pixel format. *)
Lemma detect_dispatch env f data e :
  Fb.buf f = Some data -> Fb.len f <> 0 ->
  cooldown_active env (this e) = false ->
  detect env (Some f) e =
    match Fb.format f with
    | PIXFORMAT_JPEG => detectFromJpegSize env f e
    | PIXFORMAT_GRAYSCALE => detect_grayscale env f data e
    | _ => Ok (no_detection, e, [LogUnsupportedFormat])
    end.
Proof.
  intros Hb Hl Hc. unfold detect. rewrite Hb.
  apply Z.eqb_neq in Hl. rewrite Hl, Hc. reflexivity.
Qed.

(** C7: a frame with a null data pointer or of zero length, and a frame
    whose pixel format is neither grayscale nor JPEG, gets the all-false
    result and leaves the engine (baseline buffer, stored dimensions, JPEG
    size history, cooldown timestamp) as it was. *)
Theorem detect_rejects_bad_frames env f e :
  Fb.buf f = None \/ Fb.len f = 0 \/
  (Fb.format f <> PIXFORMAT_GRAYSCALE /\ Fb.format f <> PIXFORMAT_JPEG) ->
  exists log, detect env (Some f) e = Ok (no_detection, e, log).
Proof.
  intros H. unfold detect.
  destruct (Fb.buf f) as [data|]; [|eexists; reflexivity].
  destruct (Fb.len f =? 0) eqn:L; [eexists; reflexivity|].
  destruct (cooldown_active env (this e)); [eexists; reflexivity|].
  destruct H as [H|[H|[Hg Hj]]].
  - discriminate.
  - apply Z.eqb_neq in L. contradiction.
  - destruct (Fb.format f); try (eexists; reflexivity); contradiction.
Qed.

Lemma detect_rejects_bad_frames_witness :
  exists log,
    detect (at_time 5000)
           (Some {| Fb.buf := None; Fb.len := 12; Fb.width := 4;
                    Fb.height := 3; Fb.format := PIXFORMAT_GRAYSCALE |})
           initial_engine
    = Ok (no_detection, initial_engine, log).
Proof.
  apply detect_rejects_bad_frames. left. reflexivity.
Defined.

(** C5: while [millis() - lastDetectionTime < cooldownMs] a valid frame gets
    the all-false result and the engine is unchanged; and whatever frame a
    call is given, when it returns the cooldown timestamp is the clock
    reading if the result has [detected = true] and the old timestamp
    otherwise. *)
Theorem cooldown_gate env f data e :
  Fb.buf f = Some data -> Fb.len f <> 0 ->
  (u32 (millis_entry env - lastDetectionTime (this e))
     < cooldownMs (config (this e)) ->
   detect env (Some f) e = Ok (no_detection, e, []))
  /\
  (forall frame r e' log,
     detect env frame e = Ok (r, e', log) ->
     lastDetectionTime (this e') =
       if detected r then millis_accept env else lastDetectionTime (this e)).
Proof.
  intros Hb Hl. split.
  - intros Hc. unfold detect. rewrite Hb.
    apply Z.eqb_neq in Hl. rewrite Hl.
    unfold cooldown_active. apply Z.ltb_lt in Hc. rewrite Hc. reflexivity.
  - clear f data Hb Hl. intros frame r e' log H.
    unfold detect in H.
    destruct frame as [f|]; [|returned H].
    destruct (Fb.buf f) as [data|]; [|returned H].
    destruct (Fb.len f =? 0); [returned H|].
    destruct (cooldown_active env (this e)); [returned H|].
    destruct (Fb.format f);
      try (returned H).
    + apply (detect_grayscale_lastDetectionTime _ _ _ _ _ _ _ H).
    + apply (detectFromJpegSize_lastDetectionTime _ _ _ _ _ _ H).
Qed.

Lemma cooldown_gate_witness :
  detect (at_time 1999) (Some small_frame) small_engine
  = Ok (no_detection, small_engine, [])
  /\
  (forall r e' log,
     detect (at_time 5000) (Some small_frame) small_engine = Ok (r, e', log) ->
     detected r = true /\ lastDetectionTime (this e') = 5000).
Proof.
  assert (Fb.len small_frame <> 0) as Hlen by (vm_compute; discriminate).
  split.
  - destruct (cooldown_gate (at_time 1999) small_frame
                (one_block_frame 8 8 2 1 2 x64) small_engine eq_refl Hlen)
      as [H _].
    apply H. vm_compute. reflexivity.
  - intros r e' log E.
    destruct (cooldown_gate (at_time 5000) small_frame
                (one_block_frame 8 8 2 1 2 x64) small_engine eq_refl Hlen)
      as [_ H].
    pose proof (H _ _ _ _ E) as L.
    assert (detected r = true) as D by (vm_compute in E; inversion E; reflexivity).
    rewrite D in L. split; [exact D|exact L].
Defined.

(** C10: a detector just constructed (whatever configuration it was then
    given) or just reset has [lastDetectionTime = 0] and no baseline, so
    every call made while the clock reads less than [cooldownMs] gets the
    all-false result and leaves the engine, still without a baseline, as it
    was. *)
Theorem fresh_detector_starts_in_cooldown env frame e :
  (exists cfg, this e = setConfig cfg MotionDetector_ctor) \/
  (exists d, this e = reset d) ->
  millis_entry env < cooldownMs (config (this e)) ->
  lastDetectionTime (this e) = 0 /\
  prevFrame (this e) = None /\
  exists log, detect env frame e = Ok (no_detection, e, log).
Proof.
  intros Hfresh Hclock.
  assert (lastDetectionTime (this e) = 0 /\ prevFrame (this e) = None) as [L P].
  { destruct Hfresh as [[cfg H]|[d H]]; rewrite H; split; reflexivity. }
  split; [exact L|]. split; [exact P|].
  unfold detect.
  destruct frame as [f|]; [|eexists; reflexivity].
  destruct (Fb.buf f); [|eexists; reflexivity].
  destruct (Fb.len f =? 0); [eexists; reflexivity|].
  assert (cooldown_active env (this e) = true) as ->.
  { unfold cooldown_active. rewrite L, Z.sub_0_r.
    unfold millis_entry in *. rewrite u32_idem. apply Z.ltb_lt. exact Hclock. }
  eexists; reflexivity.
Qed.

Lemma fresh_detector_starts_in_cooldown_witness :
  lastDetectionTime (this initial_engine) = 0 /\
  prevFrame (this initial_engine) = None /\
  exists log,
    detect (at_time 1500) (Some (gray_frame 16 16 black16)) initial_engine
    = Ok (no_detection, initial_engine, log).
Proof.
  apply fresh_detector_starts_in_cooldown.
  - left. exists default_config. reflexivity.
  - vm_compute. reflexivity.
Defined.

(** ** Allocation of the baseline *)

Lemma memcpy_fresh (n : Z) (src : list byte) :
  0 <= n <= Z.of_nat (length src) ->
  memcpy (repeat x00 (Z.to_nat n)) src n = Ok (firstn (Z.to_nat n) src).
Proof.
  intros H. unfold memcpy.
  rewrite repeat_length, Z2Nat.id by lia.
  replace (n <=? Z.of_nat (length src)) with true by (symmetry; apply Z.leb_le; lia).
  rewrite Z.leb_refl. cbn [andb].
  rewrite skipn_all2 by (rewrite repeat_length; lia).
  rewrite app_nil_r. reflexivity.
Qed.

(** C8: when both allocation requests fail during a first observation,
    [detect] returns the all-false result with the stored dimensions at
    zero and no buffer; the next call with a frame of the same dimensions is
    a first observation again and requests the memory again: it stores the
    frame as baseline if a request succeeds and ends as before if not. *)
Theorem allocation_failure_retries env f data e :
  Fb.buf f = Some data -> Fb.len f <> 0 ->
  Fb.format f = PIXFORMAT_GRAYSCALE ->
  cooldown_active env (this e) = false ->
  baseline (this e) (u16 (Fb.width f)) (u16 (Fb.height f)) = None ->
  malloc_spiram env = false -> malloc_internal env = false ->
  let w := u16 (Fb.width f) in
  let h := u16 (Fb.height f) in
  let failed :=
    {| this := {| config := config (this e); prevFrame := None;
                  prevWidth := 0; prevHeight := 0;
                  lastDetectionTime := lastDetectionTime (this e) |};
       statics := statics e |} in
  detect env (Some f) e = Ok (no_detection, failed, [LogAllocFailed]) /\
  forall env' f' data',
    Fb.buf f' = Some data' -> Fb.len f' <> 0 ->
    Fb.format f' = PIXFORMAT_GRAYSCALE ->
    u16 (Fb.width f') = w -> u16 (Fb.height f') = h ->
    cooldown_active env' (this failed) = false ->
    baseline (this failed) w h = None /\
    (malloc_spiram env' || malloc_internal env' = true ->
     w * h <= Z.of_nat (length data') ->
     detect env' (Some f') failed =
       Ok (no_detection,
           {| this := {| config := config (this e);
                         prevFrame := Some (firstn (Z.to_nat (w * h)) data');
                         prevWidth := w; prevHeight := h;
                         lastDetectionTime := lastDetectionTime (this e) |};
              statics := statics e |},
           [LogAllocated (w * h)])) /\
    (malloc_spiram env' || malloc_internal env' = false ->
     detect env' (Some f') failed = Ok (no_detection, failed, [LogAllocFailed])).
Proof.
  intros Hb Hl Hf Hc Hbase Hs Hi w h failed. split.
  - rewrite (detect_dispatch env f data e Hb Hl Hc), Hf.
    unfold detect_grayscale. rewrite Hbase.
    unfold allocatePrevFrame. rewrite Hs, Hi. reflexivity.
  - intros env' f' data' Hb' Hl' Hf' Hw Hh Hc'.
    assert (baseline (this failed) w h = None) as B by reflexivity.
    split; [exact B|].
    assert (0 <= w * h < 2 ^ 32) as R.
    { pose proof (u16_range (Fb.width f)). pose proof (u16_range (Fb.height f)).
      subst w h. nia. }
    rewrite (detect_dispatch env' f' data' failed Hb' Hl' Hc'), Hf'.
    unfold detect_grayscale. rewrite Hw, Hh, B.
    unfold allocatePrevFrame. rewrite (u32_small _ R).
    split.
    + intros Hm Hlen.
      assert ((if malloc_spiram env' then Some (repeat x00 (Z.to_nat (w * h)))
               else if malloc_internal env' then Some (repeat x00 (Z.to_nat (w * h)))
               else None) = Some (repeat x00 (Z.to_nat (w * h)))) as ->.
      { destruct (malloc_spiram env'); [reflexivity|].
        destruct (malloc_internal env'); [reflexivity|discriminate]. }
      cbn [prevFrame]. rewrite memcpy_fresh by lia. reflexivity.
    + intros Hm. apply orb_false_iff in Hm. destruct Hm as [-> ->]. reflexivity.
Qed.

Lemma allocation_failure_retries_witness :
  let out_of_memory :=
    {| clock_entry := 5000; clock_accept := 5000;
       malloc_spiram := false; malloc_internal := false |} in
  detect out_of_memory (Some (gray_frame 16 16 black16)) initial_engine
  = Ok (no_detection, initial_engine, [LogAllocFailed]) /\
  detect (at_time 5100) (Some (gray_frame 16 16 half_step_frame)) initial_engine
  = Ok (no_detection,
        engine_with_baseline default_config 16 16 half_step_frame,
        [LogAllocated 256]).
Proof.
  intros out_of_memory.
  destruct (allocation_failure_retries out_of_memory
              (gray_frame 16 16 black16) black16 initial_engine)
    as [H1 H2]; try reflexivity.
  - vm_compute. discriminate.
  - split; [exact H1|].
    assert (Fb.len (gray_frame 16 16 half_step_frame) <> 0) as Hlen
      by (vm_compute; discriminate).
    destruct (H2 (at_time 5100) (gray_frame 16 16 half_step_frame) half_step_frame
                eq_refl Hlen eq_refl eq_refl eq_refl eq_refl) as [_ [H3 _]].
    apply H3; vm_compute; [reflexivity|discriminate].
Defined.

(** ** [reset] *)

(** The heuristic reads and writes the statics; of the detector object it
    only writes the cooldown timestamp. *)
Lemma heuristic_ignores_the_object env f e1 e2 :
  statics e1 = statics e2 ->
  heuristic_view (detectFromJpegSize env f e1)
  = heuristic_view (detectFromJpegSize env f e2).
Proof.
  intros Hs. unfold detectFromJpegSize. rewrite <- Hs.
  destruct (_ || _); [reflexivity|].
  destruct (sum_valid _) as [sum validCount].
  destruct (_ || _); [reflexivity|].
  destruct (F64.ltb F64.ten _); [|reflexivity].
  destruct (F64.ltb _ F64.three); [reflexivity|].
  destruct (F64.ltb F64.fifty _); reflexivity.
Qed.

(** C4, as the code has it: [reset()] releases the previous-frame buffer,
    zeroes the stored dimensions and clears the cooldown timestamp, which
    makes the detector object the freshly constructed one with the current
    configuration; the JPEG size history, its cursor and the previous JPEG
    length are not members of the object and stay as they are, so the
    heuristic judges the next encoded frame as it would have without the
    reset. *)
Theorem reset_clears_the_object_only e :
  prevFrame (this (engine_reset e)) = None /\
  prevWidth (this (engine_reset e)) = 0 /\
  prevHeight (this (engine_reset e)) = 0 /\
  lastDetectionTime (this (engine_reset e)) = 0 /\
  this (engine_reset e) = setConfig (config (this e)) MotionDetector_ctor /\
  statics (engine_reset e) = statics e /\
  forall env f,
    heuristic_view (detectFromJpegSize env f (engine_reset e))
    = heuristic_view (detectFromJpegSize env f e).
Proof.
  repeat split.
  intros env f. apply heuristic_ignores_the_object. reflexivity.
Qed.

(** After three encoded frames and a [reset()], the history still holds
    the three lengths, and the next encoded frame is judged against them and
    reported as motion, where a new program is still warming up. *)
Lemma reset_does_not_restart_warmup :
  jpegSizeHistory (statics (engine_reset warm_engine)) = [1000; 1000; 1000; 0; 0] /\
  prevJpegSize (statics (engine_reset warm_engine)) = 1000 /\
  (exists r e' log,
     detect (at_time 9000) (Some (jpeg_frame 640 480 1300)) (engine_reset warm_engine)
     = Ok (r, e', log) /\ detected r = true) /\
  (exists e',
     detect (at_time 9000) (Some (jpeg_frame 640 480 1300)) initial_engine
     = Ok (no_detection, e', [])).
Proof.
  split; [vm_compute; reflexivity|].
  split; [vm_compute; reflexivity|].
  split.
  - do 3 eexists. split; vm_compute; reflexivity.
  - eexists. vm_compute. reflexivity.
Qed.

(** ** The JPEG-size heuristic *)

Lemma above_ten_not_below_three (v : spec_float) :
  F64.ltb F64.ten v = true -> F64.ltb v F64.three = false.
Proof.
  change F64.ten with (S754_finite false 5629499534213120 (-49)).
  change F64.three with (S754_finite false 6755399441055744 (-51)).
  unfold F64.ltb, SFltb, SFcompare.
  destruct v as [s|s| |s m e]; try discriminate.
  - destruct s; [discriminate|reflexivity].
  - destruct s; [discriminate|].
    destruct (Z.compare_spec (-49) e) as [E|E|E]; try discriminate.
    + subst e. reflexivity.
    + intros _. destruct (Z.compare_spec e (-51)) as [E'|E'|E']; try reflexivity; lia.
Qed.

(** The noise test of line 239 sits inside the branch [sizeDiff > 10.0]:
    a result of the heuristic with [sizeFiltered] set is a deviation above
    50 percent, never one below 3 percent. *)
Lemma jpeg_filtered_only_above_fifty env f e r e' log :
  detectFromJpegSize env f e = Ok (r, e', log) ->
  sizeFiltered r = true ->
  F64.ltb F64.fifty (F64.of_float (sizePercent r)) = true.
Proof.
  unfold detectFromJpegSize. intros H.
  destruct (_ || _); [discriminate|].
  destruct (sum_valid _) as [sum validCount].
  destruct (_ || _).
  { returned H. }
  destruct (F64.ltb F64.ten _) eqn:T.
  2:{ returned H. }
  rewrite (above_ten_not_below_three _ T) in H.
  destruct (F64.ltb F64.fifty _) eqn:L.
  - cbn in H. inversion H; subst. intros _. cbn [sizePercent set_flags]. exact L.
  - cbn in H. returned H.
Qed.

(** C3, evaluated: after four encoded frames of 995 bytes a frame of 1020
    bytes makes the rolling average 1000 and deviates from it by exactly
    2 percent; warm-up is over (four non-zero entries, previous length 995);
    the call returns the all-false result: [sizeFiltered] is [false]. *)
Theorem jpeg_two_percent_is_not_flagged :
  statics steady_engine =
    {| prevJpegSize := 995; jpegSizeHistory := [995; 995; 995; 995; 0];
       historyIdx := 4 |} /\
  sum_valid [995; 995; 995; 995; 1020] = (5000, 5) /\
  float_value (jpeg_deviation 1020 1000) = Some (2 # 1)%Q /\
  exists r e' log,
    detect (at_time 9000) (Some (jpeg_frame 640 480 1020)) steady_engine
    = Ok (r, e', log) /\
    r = no_detection /\ detected r = false /\ sizeFiltered r = false.
Proof.
  split; [vm_compute; reflexivity|].
  split; [vm_compute; reflexivity|].
  split; [vm_compute; reflexivity|].
  do 3 eexists. split; [vm_compute; reflexivity|].
  repeat split.
Qed.

(** ** Loops *)

(** The rule for [for_loop]: an invariant kept by every iteration, none of
    which faults, holds at the end, and the loop does not fault. *)
Lemma for_loop_invariant {St : Type} (I : Z -> St -> Prop)
    (body : Z -> St -> outcome St) :
  forall (n : nat) (i0 : Z) (s0 : St),
    I i0 s0 ->
    (forall i s, i0 <= i < i0 + Z.of_nat n -> I i s ->
                 exists s', body i s = Ok s' /\ I (i + 1) s') ->
    exists s', for_loop n i0 body s0 = Ok s' /\ I (i0 + Z.of_nat n) s'.
Proof.
  induction n as [|n IH]; intros i0 s0 H0 Hstep.
  - exists s0. split; [reflexivity|]. rewrite Z.add_0_r. exact H0.
  - destruct (Hstep i0 s0) as [s1 [E1 I1]]; [lia|exact H0|].
    destruct (IH (i0 + 1) s1 I1) as [s' [E' I']].
    { intros i s Hi. apply Hstep. lia. }
    exists s'. split.
    + cbn [for_loop]. rewrite E1. exact E'.
    + replace (i0 + Z.of_nat (S n)) with (i0 + 1 + Z.of_nat n) by lia. exact I'.
Qed.

Lemma range_succ (i : Z) : 0 <= i -> range (i + 1) = range i ++ [i].
Proof.
  intros H. unfold range.
  replace (Z.to_nat (i + 1)) with (S (Z.to_nat i)) by lia.
  rewrite seq_S, map_app. cbn [map Nat.add]. rewrite Z2Nat.id by lia. reflexivity.
Qed.

Lemma in_range (n i : Z) : In i (range n) <-> 0 <= i < n.
Proof.
  unfold range. rewrite in_map_iff. split.
  - intros [k [<- Hk]]. apply in_seq in Hk. lia.
  - intros H. exists (Z.to_nat i). split; [lia|]. apply in_seq. lia.
Qed.

Lemma range_length (n : Z) : length (range n) = Z.to_nat n.
Proof. unfold range. rewrite length_map, length_seq. reflexivity. Qed.

Lemma zsum_app f l1 l2 : zsum f (l1 ++ l2) = zsum f l1 + zsum f l2.
Proof.
  induction l1 as [|a l1 IH]; cbn [zsum app fold_right].
  - reflexivity.
  - fold (zsum f (l1 ++ l2)). fold (zsum f l1). rewrite IH. lia.
Qed.

Lemma zsum_bounds f (B : Z) l :
  (forall i, In i l -> 0 <= f i <= B) ->
  0 <= zsum f l <= B * Z.of_nat (length l).
Proof.
  induction l as [|a l IH]; intros H.
  - cbn. lia.
  - cbn [zsum fold_right length]. fold (zsum f l).
    pose proof (H a (or_introl eq_refl)).
    assert (0 <= zsum f l <= B * Z.of_nat (length l)) by (apply IH; intros; apply H; right; assumption).
    lia.
Qed.

(** A loop that adds a bounded term per iteration to a 32-bit counter
    computes the sum, provided the budget excludes a wrap-around. *)
Lemma for_loop_sum (body : Z -> Z -> outcome Z) (d : Z -> Z) (B : Z)
    (n : nat) (acc : Z) :
  0 <= acc -> 0 <= B ->
  (forall i, 0 <= i < Z.of_nat n -> 0 <= d i <= B) ->
  (forall i a, 0 <= i < Z.of_nat n -> 0 <= a -> a + B < 2 ^ 32 ->
               body i a = Ok (a + d i)) ->
  acc + Z.of_nat n * B < 2 ^ 32 ->
  for_loop n 0 body acc = Ok (acc + zsum d (range (Z.of_nat n))).
Proof.
  intros Hacc HB Hd Hbody Hbudget.
  destruct (for_loop_invariant
              (fun i a => 0 <= i /\ a = acc + zsum d (range i) /\
                          0 <= a <= acc + i * B)
              body n 0 acc) as [s' [E [_ [-> _]]]].
  - cbn. lia.
  - intros i a Hi [Hi0 [Ha Hb]].
    exists (a + d i). split.
    + apply Hbody; [lia|lia|nia].
    + split; [lia|]. split.
      * rewrite range_succ, zsum_app by lia. cbn. lia.
      * pose proof (Hd i ltac:(lia)). nia.
  - exact E.
Qed.

(** A loop whose iteration [i] folds a pure step over the items of [i]
    folds it over all the items. *)
Lemma for_loop_fold {St A : Type} (body : Z -> St -> outcome St)
    (step : St -> A -> St) (items : Z -> list A) (n : nat) (s0 : St) :
  (forall i s, 0 <= i < Z.of_nat n ->
               body i s = Ok (fold_left step (items i) s)) ->
  for_loop n 0 body s0
  = Ok (fold_left step (flat_map items (range (Z.of_nat n))) s0).
Proof.
  intros Hbody.
  destruct (for_loop_invariant
              (fun i s => 0 <= i /\
                          s = fold_left step (flat_map items (range i)) s0)
              body n 0 s0) as [s' [E [_ ->]]].
  - split; [lia|reflexivity].
  - intros i s Hi [Hi0 ->].
    eexists. split; [apply Hbody; lia|].
    split; [lia|].
    rewrite range_succ, flat_map_app, fold_left_app by lia.
    cbn [flat_map]. rewrite app_nil_r. reflexivity.
  - exact E.
Qed.

Lemma flat_map_singleton {A B : Type} (f : A -> B) (l : list A) :
  flat_map (fun a => [f a]) l = map f l.
Proof. induction l as [|a l IH]; cbn; [reflexivity|rewrite IH; reflexivity]. Qed.

(** ** Reading pixels *)

Lemma pixel_range (b : list byte) (i : Z) : 0 <= pixel b i <= 255.
Proof.
  unfold pixel. pose proof (Byte.to_N_bounded (nth (Z.to_nat i) b x00)). lia.
Qed.

Lemma read_ok (b : list byte) (i : Z) :
  0 <= i < Z.of_nat (length b) -> read b i = Ok (pixel b i).
Proof.
  intros H. unfold read, pixel.
  replace (i <? 0) with false by (symmetry; apply Z.ltb_ge; lia).
  rewrite (nth_error_nth' b x00) by lia. reflexivity.
Qed.

(** ** The block comparison computes the scan of the grid *)

Section BlockComparison.
Variable cfg : MotionConfig.
Variables w h : Z.
Variables cur prev : list byte.

Hypothesis blockSize_pos : 0 < blockSize cfg.
Hypothesis width_u16 : 0 <= w < 2 ^ 16.
Hypothesis height_u16 : 0 <= h < 2 ^ 16.
Hypothesis cur_holds_frame : w * h <= Z.of_nat (length cur).
Hypothesis prev_holds_frame : w * h <= Z.of_nat (length prev).

(** Every pixel of every block of the grid lies inside the frame. *)
Lemma block_index_in_frame bx by_ py px :
  0 <= bx < w / blockSize cfg -> 0 <= by_ < h / blockSize cfg ->
  0 <= py < blockSize cfg -> 0 <= px < blockSize cfg ->
  0 <= (by_ * blockSize cfg + py) * w + (bx * blockSize cfg + px) < w * h.
Proof.
  intros Hbx Hby Hpy Hpx.
  pose proof (Z.mul_div_le w (blockSize cfg) blockSize_pos) as Hx.
  pose proof (Z.mul_div_le h (blockSize cfg) blockSize_pos) as Hy.
  assert (bx * blockSize cfg + px < w) as Hc by nia.
  assert (by_ * blockSize cfg + py + 1 <= h) as Hr by nia.
  split; [nia|].
  assert ((by_ * blockSize cfg + py + 1) * w <= h * w) by nia.
  nia.
Qed.

Lemma pixel_body_ok bx by_ py px acc :
  0 <= bx < w / blockSize cfg -> 0 <= by_ < h / blockSize cfg ->
  0 <= py < blockSize cfg -> 0 <= px < blockSize cfg ->
  0 <= acc -> acc + 255 < 2 ^ 32 ->
  pixel_body cfg w cur prev bx by_ py px acc
  = Ok (acc + Z.abs (pixel cur ((by_ * blockSize cfg + py) * w + (bx * blockSize cfg + px))
                     - pixel prev ((by_ * blockSize cfg + py) * w + (bx * blockSize cfg + px)))).
Proof.
  intros Hbx Hby Hpy Hpx Hacc Hroom.
  pose proof (block_index_in_frame bx by_ py px Hbx Hby Hpy Hpx) as Hi.
  unfold pixel_body.
  rewrite u32_small by nia.
  rewrite !read_ok by lia. cbn [bind].
  set (i := (by_ * blockSize cfg + py) * w + (bx * blockSize cfg + px)) in *.
  pose proof (pixel_range cur i). pose proof (pixel_range prev i).
  rewrite u32_small by lia. reflexivity.
Qed.

(** The pixel loops of a block return the sum of its absolute differences;
    up to a block side of 256 the 32-bit accumulator cannot wrap. *)
Lemma block_diff_ok bx by_ :
  blockSize cfg * blockSize cfg <= 65536 ->
  0 <= bx < w / blockSize cfg -> 0 <= by_ < h / blockSize cfg ->
  block_diff cfg w cur prev bx by_
  = Ok (block_abs_diff_sum (blockSize cfg) w cur prev bx by_).
Proof.
  intros Hsq Hbx Hby.
  assert (blockSize cfg <= 256) as Hle by nia.
  unfold block_diff, block_abs_diff_sum.
  set (d := fun py px =>
              Z.abs (pixel cur ((by_ * blockSize cfg + py) * w + (bx * blockSize cfg + px))
                     - pixel prev ((by_ * blockSize cfg + py) * w + (bx * blockSize cfg + px)))).
  assert (forall py px, 0 <= d py px <= 255) as Hd.
  { intros py px. unfold d.
    pose proof (pixel_range cur ((by_ * blockSize cfg + py) * w + (bx * blockSize cfg + px))).
    pose proof (pixel_range prev ((by_ * blockSize cfg + py) * w + (bx * blockSize cfg + px))).
    lia. }
  assert (forall py, 0 <= zsum (d py) (range (blockSize cfg)) <= blockSize cfg * 255) as Hrow.
  { intros py.
    pose proof (zsum_bounds (d py) 255 (range (blockSize cfg)) (fun i _ => Hd py i)) as Hb.
    rewrite range_length, Z2Nat.id in Hb by lia. lia. }
  rewrite (for_loop_sum _ (fun py => zsum (d py) (range (blockSize cfg)))
             (blockSize cfg * 255)).
  - rewrite Z2Nat.id by lia. reflexivity.
  - lia.
  - lia.
  - intros py _. apply Hrow.
  - intros py a Hpy Ha Hroom. rewrite Z2Nat.id in Hpy by lia.
    rewrite (for_loop_sum _ (d py) 255).
    + rewrite Z2Nat.id by lia. reflexivity.
    + exact Ha.
    + lia.
    + intros px _. apply Hd.
    + intros px a' Hpx Ha' Hroom'. rewrite Z2Nat.id in Hpx by lia.
      apply pixel_body_ok; assumption.
    + rewrite Z2Nat.id by lia. lia.
  - rewrite Z2Nat.id by lia. nia.
Qed.

Lemma block_abs_diff_sum_bounds bx by_ :
  0 <= block_abs_diff_sum (blockSize cfg) w cur prev bx by_
    <= 255 * (blockSize cfg * blockSize cfg).
Proof.
  unfold block_abs_diff_sum.
  set (d := fun py px =>
              Z.abs (pixel cur ((by_ * blockSize cfg + py) * w + (bx * blockSize cfg + px))
                     - pixel prev ((by_ * blockSize cfg + py) * w + (bx * blockSize cfg + px)))).
  assert (forall py px, 0 <= d py px <= 255) as Hd.
  { intros py px. unfold d.
    pose proof (pixel_range cur ((by_ * blockSize cfg + py) * w + (bx * blockSize cfg + px))).
    pose proof (pixel_range prev ((by_ * blockSize cfg + py) * w + (bx * blockSize cfg + px))).
    lia. }
  assert (forall py, 0 <= zsum (d py) (range (blockSize cfg)) <= 255 * blockSize cfg) as Hrow.
  { intros py.
    pose proof (zsum_bounds (d py) 255 (range (blockSize cfg)) (fun i _ => Hd py i)) as Hb.
    rewrite range_length, Z2Nat.id in Hb by lia. lia. }
  pose proof (zsum_bounds (fun py => zsum (d py) (range (blockSize cfg)))
                (255 * blockSize cfg) (range (blockSize cfg)) (fun i _ => Hrow i)) as Hb.
  rewrite range_length, Z2Nat.id in Hb by lia.
  change (0 <= zsum (fun py => zsum (d py) (range (blockSize cfg))) (range (blockSize cfg))
            <= 255 * (blockSize cfg * blockSize cfg)).
  lia.
Qed.

(** With [blockSize * blockSize < 65536] the 16-bit pixel count and the
    8-bit average are exact: the block is marked when its truncated mean
    exceeds the threshold. *)
Lemma block_body_ok by_ bx st :
  blockSize cfg * blockSize cfg < 65536 ->
  0 <= bx < w / blockSize cfg -> 0 <= by_ < h / blockSize cfg ->
  block_body cfg w cur prev by_ bx st
  = Ok (if truncated_mean_exceeds (blockSize cfg) w cur prev (threshold cfg) (bx, by_)
        then note_changed bx by_ st else st).
Proof.
  intros Hsq Hbx Hby.
  unfold block_body. rewrite block_diff_ok by (assumption || lia). cbn [bind].
  assert (0 < blockSize cfg * blockSize cfg) as Hpos by nia.
  rewrite u16_small by lia.
  replace (blockSize cfg * blockSize cfg =? 0) with false
    by (symmetry; apply Z.eqb_neq; lia).
  pose proof (block_abs_diff_sum_bounds bx by_) as Hb.
  rewrite u8_small.
  - unfold truncated_mean_exceeds, truncated_mean. cbn [fst snd].
    destruct (threshold cfg <? _); reflexivity.
  - split.
    + apply Z.div_pos; lia.
    + apply Z.div_lt_upper_bound; lia.
Qed.

(** The two block loops compute the scan of the grid. *)
Lemma compare_blocks_ok :
  blockSize cfg * blockSize cfg < 65536 ->
  compare_blocks cfg w cur prev (w / blockSize cfg) (h / blockSize cfg)
  = Ok (scan_grid (blockSize cfg) w cur prev (threshold cfg)
                  (w / blockSize cfg) (h / blockSize cfg)).
Proof.
  intros Hsq.
  assert (0 <= w / blockSize cfg) as HX by (apply Z.div_pos; lia).
  assert (0 <= h / blockSize cfg) as HY by (apply Z.div_pos; lia).
  unfold compare_blocks, scan_grid, grid.
  rewrite (for_loop_fold _
             (fun st b =>
                if truncated_mean_exceeds (blockSize cfg) w cur prev (threshold cfg) b
                then note_changed (fst b) (snd b) st else st)
             (fun by_ => map (fun bx => (bx, by_)) (range (w / blockSize cfg)))).
  - rewrite Z2Nat.id by lia. reflexivity.
  - intros by_ st Hby. rewrite Z2Nat.id in Hby by lia.
    rewrite (for_loop_fold _
               (fun st b =>
                  if truncated_mean_exceeds (blockSize cfg) w cur prev (threshold cfg) b
                  then note_changed (fst b) (snd b) st else st)
               (fun bx => [(bx, by_)])).
    + rewrite Z2Nat.id, flat_map_singleton by lia. reflexivity.
    + intros bx st' Hbx. rewrite Z2Nat.id in Hbx by lia.
      rewrite block_body_ok by (assumption || lia). reflexivity.
Qed.

End BlockComparison.

(** ** The grayscale path of [detect] *)

Lemma memcpy_ok (dst src : list byte) (n : Z) :
  n <= Z.of_nat (length src) -> n <= Z.of_nat (length dst) ->
  memcpy dst src n = Ok (firstn (Z.to_nat n) src ++ skipn (Z.to_nat n) dst).
Proof.
  intros Hs Hd. unfold memcpy.
  replace (n <=? Z.of_nat (length src)) with true by (symmetry; apply Z.leb_le; lia).
  replace (n <=? Z.of_nat (length dst)) with true by (symmetry; apply Z.leb_le; lia).
  reflexivity.
Qed.

Lemma frame_size_u32 (a b : Z) : 0 <= u16 a * u16 b < 2 ^ 32.
Proof. pose proof (u16_range a). pose proof (u16_range b). nia. Qed.

Lemma blocks_bounds (w bs : Z) : 0 <= w -> 0 < bs -> 0 <= w / bs <= w.
Proof.
  intros Hw Hbs.
  pose proof (Z.mul_div_le w bs Hbs) as Hm.
  assert (0 <= w / bs) as H0 by (apply Z.div_pos; lia).
  split; [exact H0|].
  assert (1 * (w / bs) <= bs * (w / bs)) by (apply Z.mul_le_mono_nonneg_r; lia).
  lia.
Qed.

Lemma blocks_u16 (w bs : Z) : 0 <= w < 2 ^ 16 -> 0 < bs -> u16 (w / bs) = w / bs.
Proof.
  intros Hw Hbs. apply u16_small.
  pose proof (blocks_bounds w bs ltac:(lia) Hbs). lia.
Qed.

(** A first observation with memory available stores the frame as the
    baseline and returns the all-false result. *)
Lemma detect_first_observation env f data e :
  Fb.buf f = Some data -> Fb.len f <> 0 ->
  Fb.format f = PIXFORMAT_GRAYSCALE ->
  cooldown_active env (this e) = false ->
  baseline (this e) (u16 (Fb.width f)) (u16 (Fb.height f)) = None ->
  malloc_spiram env || malloc_internal env = true ->
  u16 (Fb.width f) * u16 (Fb.height f) <= Z.of_nat (length data) ->
  detect env (Some f) e =
    Ok (no_detection,
        {| this := {| config := config (this e);
                      prevFrame :=
                        Some (firstn (Z.to_nat (u16 (Fb.width f) * u16 (Fb.height f))) data);
                      prevWidth := u16 (Fb.width f);
                      prevHeight := u16 (Fb.height f);
                      lastDetectionTime := lastDetectionTime (this e) |};
           statics := statics e |},
        [LogAllocated (u16 (Fb.width f) * u16 (Fb.height f))]).
Proof.
  intros Hb Hl Hf Hc Hbase Hm Hlen.
  pose proof (frame_size_u32 (Fb.width f) (Fb.height f)) as R.
  rewrite (detect_dispatch env f data e Hb Hl Hc), Hf.
  unfold detect_grayscale. rewrite Hbase.
  unfold allocatePrevFrame. rewrite (u32_small _ R).
  assert ((if malloc_spiram env
           then Some (repeat x00 (Z.to_nat (u16 (Fb.width f) * u16 (Fb.height f))))
           else if malloc_internal env
                then Some (repeat x00 (Z.to_nat (u16 (Fb.width f) * u16 (Fb.height f))))
                else None)
          = Some (repeat x00 (Z.to_nat (u16 (Fb.width f) * u16 (Fb.height f))))) as ->.
  { destruct (malloc_spiram env); [reflexivity|].
    destruct (malloc_internal env); [reflexivity|discriminate]. }
  cbn [prevFrame]. rewrite memcpy_fresh by lia. reflexivity.
Qed.

(** A comparison whose block loops and copy succeed ends in [assemble]. *)
Lemma detect_grayscale_steps env f data e prev sc prev' :
  baseline (this e) (u16 (Fb.width f)) (u16 (Fb.height f)) = Some prev ->
  blockSize (config (this e)) <> 0 ->
  compare_blocks (config (this e)) (u16 (Fb.width f)) data prev
    (u16 (u16 (Fb.width f) / blockSize (config (this e))))
    (u16 (u16 (Fb.height f) / blockSize (config (this e)))) = Ok sc ->
  memcpy prev data (u32 (u16 (Fb.width f) * u16 (Fb.height f))) = Ok prev' ->
  detect_grayscale env f data e =
    let '(r, d', log) :=
      assemble env (config (this e)) (u16 (Fb.width f)) (u16 (Fb.height f))
        (u32 (u16 (u16 (Fb.width f) / blockSize (config (this e)))
              * u16 (u16 (Fb.height f) / blockSize (config (this e)))))
        sc (set_prevFrame (Some prev') (this e)) in
    Ok (r, {| this := d'; statics := statics e |}, log).
Proof.
  intros Hbase Hbs Hcmp Hcpy. unfold detect_grayscale.
  rewrite Hbase. apply Z.eqb_neq in Hbs. rewrite Hbs, Hcmp. cbn [bind].
  rewrite Hcpy. reflexivity.
Qed.

(** With [0 < blockSize], [blockSize * blockSize < 65536] and buffers that
    hold the frame, the comparison does not fault and its result is
    assembled from the scan of the grid. *)
Lemma detect_grayscale_ok env f data e prev :
  let cfg := config (this e) in
  let w := u16 (Fb.width f) in
  let h := u16 (Fb.height f) in
  baseline (this e) w h = Some prev ->
  0 < blockSize cfg -> blockSize cfg * blockSize cfg < 65536 ->
  w * h <= Z.of_nat (length data) ->
  w * h <= Z.of_nat (length prev) ->
  detect_grayscale env f data e =
    let '(r, d', log) :=
      assemble env cfg w h (u32 ((w / blockSize cfg) * (h / blockSize cfg)))
        (scan_grid (blockSize cfg) w data prev (threshold cfg)
                   (w / blockSize cfg) (h / blockSize cfg))
        (set_prevFrame
           (Some (firstn (Z.to_nat (w * h)) data ++ skipn (Z.to_nat (w * h)) prev))
           (this e)) in
    Ok (r, {| this := d'; statics := statics e |}, log).
Proof.
  intros cfg w h Hbase Hbs Hsq Hdata Hprev.
  pose proof (u16_range (Fb.width f)) as Hw.
  pose proof (u16_range (Fb.height f)) as Hh.
  fold w in Hw. fold h in Hh.
  rewrite (detect_grayscale_steps env f data e prev
             (scan_grid (blockSize cfg) w data prev (threshold cfg)
                        (w / blockSize cfg) (h / blockSize cfg))
             (firstn (Z.to_nat (w * h)) data ++ skipn (Z.to_nat (w * h)) prev)).
  - fold cfg w h. rewrite !blocks_u16 by assumption. reflexivity.
  - exact Hbase.
  - fold cfg. lia.
  - fold cfg w h. rewrite !blocks_u16 by assumption.
    apply compare_blocks_ok; assumption.
  - fold w h. rewrite u32_small by (apply frame_size_u32).
    apply memcpy_ok; assumption.
Qed.

Lemma assemble_changedBlocks env cfg w h total sc d :
  changedBlocks (fst (fst (assemble env cfg w h total sc d))) = changed sc.
Proof.
  unfold assemble. destruct (0 <? changed sc); [|reflexivity].
  unfold apply_size_filter.
  destruct (F32.ltb _ _); [|destruct (F32.ltb _ _)];
    cbn [set_flags set_confidence measure detected changedBlocks fst];
    reflexivity.
Qed.

(** ** Counting the changed blocks *)

Section Counting.
Variables bs w : Z.
Variables cur prev : list byte.
Variable t : Z.

Lemma changed_count (l : list (Z * Z)) (st : scan) :
  0 <= changed st ->
  changed st + Z.of_nat (length l) < 2 ^ 32 ->
  changed (fold_left
             (fun st b =>
                if truncated_mean_exceeds bs w cur prev t b
                then note_changed (fst b) (snd b) st else st) l st)
  = changed st
    + Z.of_nat (length (filter (truncated_mean_exceeds bs w cur prev t) l)).
Proof.
  revert st. induction l as [|b l IH]; intros st H0 Hroom.
  - cbn. lia.
  - cbn [fold_left filter length] in *.
    destruct (truncated_mean_exceeds bs w cur prev t b).
    + rewrite IH.
      * cbn [note_changed changed length]. rewrite u32_small by lia. lia.
      * cbn [note_changed changed]. rewrite u32_small by lia. lia.
      * cbn [note_changed changed]. rewrite u32_small by lia. lia.
    + apply IH; lia.
Qed.

(** The truncated mean exceeds the threshold exactly when the mean is at
    least the threshold plus one. *)
Lemma truncated_mean_exceeds_iff (b : Z * Z) :
  0 < bs * bs ->
  truncated_mean_exceeds bs w cur prev t b = true <->
  (inject_Z (t + 1) <= mean_abs_diff bs w cur prev (fst b) (snd b))%Q.
Proof.
  intros Hpos. unfold truncated_mean_exceeds, truncated_mean, mean_abs_diff, Qle.
  cbn [Qnum Qden inject_Z]. rewrite Z2Pos.id by exact Hpos.
  rewrite Z.ltb_lt.
  set (s := block_abs_diff_sum bs w cur prev (fst b) (snd b)).
  pose proof (Z.mul_div_le s (bs * bs) Hpos) as Hdiv.
  split; intros H.
  - nia.
  - assert (t + 1 <= s / (bs * bs)); [|lia].
    apply Z.div_le_lower_bound; lia.
Qed.

End Counting.

Lemma grid_length (blocksX blocksY : Z) :
  0 <= blocksX -> 0 <= blocksY ->
  Z.of_nat (length (grid blocksX blocksY)) = blocksX * blocksY.
Proof.
  intros HX HY. unfold grid.
  assert (forall l : list Z,
             Z.of_nat (length (flat_map (fun by_ => map (fun bx => (bx, by_)) (range blocksX)) l))
             = blocksX * Z.of_nat (length l)) as H.
  { induction l as [|a l IH]; cbn [flat_map length].
    - lia.
    - rewrite length_app, length_map, range_length, Nat2Z.inj_add, IH. lia. }
  rewrite H, range_length. lia.
Qed.

(** ** The changed blocks *)

(** C2, as the code has it: in a comparison of two frames of the same
    dimensions (baseline present, cooldown expired, [0 < blockSize] and
    [blockSize * blockSize < 65536], buffers holding [width * height]
    bytes) [detect] returns, and [changedBlocks] is the number of blocks of
    the grid whose truncated mean - the integer quotient of the sum of the
    absolute pixel differences of the block by [blockSize * blockSize] -
    exceeds the threshold; that is, whose mean is at least the threshold
    plus one. *)
Theorem changed_blocks_by_truncated_mean env f data e prev :
  Fb.buf f = Some data -> Fb.len f <> 0 ->
  Fb.format f = PIXFORMAT_GRAYSCALE ->
  cooldown_active env (this e) = false ->
  baseline (this e) (u16 (Fb.width f)) (u16 (Fb.height f)) = Some prev ->
  0 < blockSize (config (this e)) ->
  blockSize (config (this e)) * blockSize (config (this e)) < 65536 ->
  u16 (Fb.width f) * u16 (Fb.height f) <= Z.of_nat (length data) ->
  u16 (Fb.width f) * u16 (Fb.height f) <= Z.of_nat (length prev) ->
  let cfg := config (this e) in
  let w := u16 (Fb.width f) in
  let h := u16 (Fb.height f) in
  (exists r e' log,
     detect env (Some f) e = Ok (r, e', log) /\
     changedBlocks r =
       Z.of_nat (length (filter (truncated_mean_exceeds (blockSize cfg) w data prev
                                   (threshold cfg))
                                (grid (w / blockSize cfg) (h / blockSize cfg)))))
  /\
  (forall b,
     truncated_mean_exceeds (blockSize cfg) w data prev (threshold cfg) b = true <->
     (inject_Z (threshold cfg + 1)
      <= mean_abs_diff (blockSize cfg) w data prev (fst b) (snd b))%Q).
Proof.
  intros Hb Hl Hf Hc Hbase Hbs Hsq Hdata Hprev cfg w h.
  split.
  - rewrite (detect_dispatch env f data e Hb Hl Hc), Hf.
    rewrite (detect_grayscale_ok env f data e prev Hbase Hbs Hsq Hdata Hprev).
    fold cfg w h.
    pose proof (assemble_changedBlocks env cfg w h
                  (u32 (w / blockSize cfg * (h / blockSize cfg)))
                  (scan_grid (blockSize cfg) w data prev (threshold cfg)
                     (w / blockSize cfg) (h / blockSize cfg))
                  (set_prevFrame
                     (Some (firstn (Z.to_nat (w * h)) data
                            ++ skipn (Z.to_nat (w * h)) prev)) (this e))) as Hcb.
    destruct (assemble _ _ _ _ _ _ _) as [[r d'] log]. cbn [fst] in Hcb.
    exists r, {| this := d'; statics := statics e |}, log.
    split; [reflexivity|].
    rewrite Hcb. unfold scan_grid.
    pose proof (u16_range (Fb.width f)) as Hw.
    pose proof (u16_range (Fb.height f)) as Hh.
    fold w in Hw. fold h in Hh.
    pose proof (blocks_bounds w (blockSize cfg) ltac:(lia) Hbs) as HX.
    pose proof (blocks_bounds h (blockSize cfg) ltac:(lia) Hbs) as HY.
    rewrite changed_count.
    + cbn [changed]. lia.
    + cbn [changed]. lia.
    + cbn [changed]. rewrite grid_length by lia. nia.
  - intros b. apply truncated_mean_exceeds_iff. apply Z.mul_pos_pos; exact Hbs.
Qed.

Lemma changed_blocks_by_truncated_mean_witness :
  let e := engine_with_baseline default_config 16 16 black16 in
  let f := gray_frame 16 16 half_step_frame in
  (exists r e' log,
     detect (at_time 5000) (Some f) e = Ok (r, e', log) /\
     changedBlocks r =
       Z.of_nat (length (filter (truncated_mean_exceeds 16 16 half_step_frame black16 25)
                                (grid (16 / 16) (16 / 16)))))
  /\
  (forall b,
     truncated_mean_exceeds 16 16 half_step_frame black16 25 b = true <->
     (inject_Z (25 + 1) <= mean_abs_diff 16 16 half_step_frame black16 (fst b) (snd b))%Q).
Proof.
  apply (changed_blocks_by_truncated_mean (at_time 5000)
           (gray_frame 16 16 half_step_frame) half_step_frame
           (engine_with_baseline default_config 16 16 black16) black16).
  - reflexivity.
  - vm_compute. discriminate.
  - reflexivity.
  - vm_compute. reflexivity.
  - vm_compute. reflexivity.
  - vm_compute. reflexivity.
  - vm_compute. reflexivity.
  - vm_compute. discriminate.
  - vm_compute. discriminate.
Defined.

(** The mean absolute difference of the one block of [half_step_frame]
    against a black baseline is 25.5, above the threshold 25, and the block
    is not counted. *)
Lemma mean_above_threshold_not_counted :
  Qred (mean_abs_diff 16 16 half_step_frame black16 0 0) = (51 # 2)%Q /\
  mean_exceeds 16 16 half_step_frame black16 (threshold default_config) (0, 0) = true /\
  exists r e' log,
    detect (at_time 5000) (Some (gray_frame 16 16 half_step_frame))
           (engine_with_baseline default_config 16 16 black16)
    = Ok (r, e', log) /\
    totalBlocks r = 1 /\ changedBlocks r = 0.
Proof.
  split; [vm_compute; reflexivity|].
  split; [vm_compute; reflexivity|].
  do 3 eexists. split; [vm_compute; reflexivity|].
  split; reflexivity.
Qed.

(** ** The size filter *)

(** C6: a comparison that returns with [changedBlocks > 0] carries the box,
    [sizePercent], the block counts and the confidence as measured from the
    scan, whether the filter rejects it or not; it has [sizeFiltered = true]
    and [detected = false] when [sizePercent < minSizePercent] or
    [sizePercent > maxSizePercent], and [sizeFiltered = false] and
    [detected = true] otherwise. *)
Theorem size_filter_reclassifies env f data e prev r e' log :
  Fb.buf f = Some data -> Fb.len f <> 0 ->
  Fb.format f = PIXFORMAT_GRAYSCALE ->
  cooldown_active env (this e) = false ->
  baseline (this e) (u16 (Fb.width f)) (u16 (Fb.height f)) = Some prev ->
  detect env (Some f) e = Ok (r, e', log) ->
  0 < changedBlocks r ->
  let cfg := config (this e) in
  let w := u16 (Fb.width f) in
  let h := u16 (Fb.height f) in
  let blocksX := u16 (w / blockSize cfg) in
  let blocksY := u16 (h / blockSize cfg) in
  exists sc,
    compare_blocks cfg w data prev blocksX blocksY = Ok sc /\
    let raw := measure cfg w h (u32 (blocksX * blocksY)) sc in
    x r = x raw /\ y r = y raw /\ width r = width raw /\ height r = height raw /\
    sizePercent r = sizePercent raw /\
    changedBlocks r = changed sc /\
    totalBlocks r = u32 (blocksX * blocksY) /\
    confidence r = block_confidence (changed sc) (u32 (blocksX * blocksY)) /\
    if F32.ltb (sizePercent raw) (minSizePercent cfg)
       || F32.ltb (maxSizePercent cfg) (sizePercent raw)
    then sizeFiltered r = true /\ detected r = false
    else sizeFiltered r = false /\ detected r = true.
Proof.
  intros Hb Hl Hf Hc Hbase H Hpos cfg w h blocksX blocksY.
  rewrite (detect_dispatch env f data e Hb Hl Hc), Hf in H.
  unfold detect_grayscale in H. rewrite Hbase in H.
  fold cfg w h in H.
  destruct (blockSize cfg =? 0); [discriminate|].
  fold blocksX blocksY in H.
  destruct (compare_blocks cfg w data prev blocksX blocksY) as [sc|]; [|discriminate].
  cbn [bind] in H.
  destruct (memcpy prev data _) as [prev'|]; [|discriminate].
  cbn [bind] in H.
  exists sc. split; [reflexivity|].
  cbv zeta.
  set (raw := measure cfg w h (u32 (blocksX * blocksY)) sc) in *.
  unfold assemble in H. fold raw in H.
  destruct (0 <? changed sc) eqn:Hch.
  - unfold apply_size_filter in H.
    destruct (F32.ltb (sizePercent raw) (minSizePercent cfg)) eqn:Hmin;
      [|destruct (F32.ltb (maxSizePercent cfg) (sizePercent raw)) eqn:Hmax];
      cbn [detected set_flags set_confidence] in H;
      [| |replace (detected raw) with true in H by reflexivity];
      inversion H; subst r;
      cbn [detected sizeFiltered x y width height sizePercent changedBlocks
           totalBlocks confidence set_flags set_confidence orb];
      repeat split; reflexivity.
  - inversion H; subst r. cbn [changedBlocks] in Hpos.
    apply Z.ltb_ge in Hch. lia.
Qed.

Lemma size_filter_reclassifies_witness :
  exists r sc,
    compare_blocks small_config 8 (one_block_frame 8 8 2 1 2 x64) black8 4 4 = Ok sc /\
    x r = 2 /\ y r = 4 /\ width r = 2 /\ height r = 2 /\
    float_value (sizePercent r) = Some (25 # 4)%Q /\
    changedBlocks r = changed sc /\
    totalBlocks r = 16 /\
    sizeFiltered r = false /\ detected r = true.
Proof.
  destruct (detect (at_time 5000) (Some small_frame) small_engine)
    as [[[r e'] log]|] eqn:E; [|vm_compute in E; discriminate].
  destruct (size_filter_reclassifies (at_time 5000) small_frame
              (one_block_frame 8 8 2 1 2 x64) small_engine black8 r e' log)
    as [sc [Hsc [Hx [Hy [Hw [Hh [Hsp [Hcb [Htb [_ Hflags]]]]]]]]]].
  - reflexivity.
  - vm_compute. discriminate.
  - reflexivity.
  - vm_compute. reflexivity.
  - vm_compute. reflexivity.
  - exact E.
  - vm_compute in E. inversion E. vm_compute. reflexivity.
  - exists r, sc.
    assert (sc = {| changed := 1; minX := 1; minY := 2; maxX := 1; maxY := 2 |}) as Esc.
    { vm_compute in Hsc. inversion Hsc. reflexivity. }
    split; [exact Hsc|].
    rewrite Hx, Hy, Hw, Hh, Hsp, Hcb, Htb. rewrite Esc in *.
    repeat (split; [vm_compute; reflexivity|]).
    vm_compute in Hflags. exact Hflags.
Defined.

(** ** A block side of 256 *)

Lemma block_body_divides_by_zero cfg w h cur prev st :
  blockSize cfg = 256 ->
  256 <= w < 2 ^ 16 -> 256 <= h < 2 ^ 16 ->
  w * h <= Z.of_nat (length cur) ->
  w * h <= Z.of_nat (length prev) ->
  block_body cfg w cur prev 0 0 st = Fault DivisionByZero.
Proof.
  intros Hbs Hw Hh Hcur Hprev.
  assert (1 <= w / 256) by (apply Z.div_le_lower_bound; lia).
  assert (1 <= h / 256) by (apply Z.div_le_lower_bound; lia).
  unfold block_body.
  rewrite (block_diff_ok cfg w h cur prev) by (rewrite ?Hbs; lia).
  cbn [bind]. rewrite Hbs. reflexivity.
Qed.

Lemma compare_blocks_divides_by_zero cfg w h cur prev :
  blockSize cfg = 256 ->
  256 <= w < 2 ^ 16 -> 256 <= h < 2 ^ 16 ->
  w * h <= Z.of_nat (length cur) ->
  w * h <= Z.of_nat (length prev) ->
  compare_blocks cfg w cur prev (w / 256) (h / 256) = Fault DivisionByZero.
Proof.
  intros Hbs Hw Hh Hcur Hprev.
  assert (1 <= w / 256) by (apply Z.div_le_lower_bound; lia).
  assert (1 <= h / 256) by (apply Z.div_le_lower_bound; lia).
  unfold compare_blocks.
  destruct (Z.to_nat (h / 256)) as [|ny] eqn:Ey; [lia|].
  destruct (Z.to_nat (w / 256)) as [|nx] eqn:Ex; [lia|].
  cbn [for_loop].
  rewrite (block_body_divides_by_zero cfg w h cur prev) by assumption.
  reflexivity.
Qed.

(** C9: [256 * 256] stored in 16 bits is 0. In a comparison (baseline
    present, cooldown expired, buffers holding [width * height] bytes) with
    [blockSize = 256] on a frame at least 256 pixels wide and tall, [detect]
    ends in a division by zero; with [0 < blockSize] and
    [blockSize * blockSize < 65536] it returns a result. *)
Theorem blockSize_256_divides_by_zero env f data e prev :
  Fb.buf f = Some data -> Fb.len f <> 0 ->
  Fb.format f = PIXFORMAT_GRAYSCALE ->
  cooldown_active env (this e) = false ->
  baseline (this e) (u16 (Fb.width f)) (u16 (Fb.height f)) = Some prev ->
  u16 (Fb.width f) * u16 (Fb.height f) <= Z.of_nat (length data) ->
  u16 (Fb.width f) * u16 (Fb.height f) <= Z.of_nat (length prev) ->
  u16 (256 * 256) = 0 /\
  (blockSize (config (this e)) = 256 ->
   256 <= u16 (Fb.width f) -> 256 <= u16 (Fb.height f) ->
   detect env (Some f) e = Fault DivisionByZero) /\
  (0 < blockSize (config (this e)) ->
   blockSize (config (this e)) * blockSize (config (this e)) < 65536 ->
   exists r e' log, detect env (Some f) e = Ok (r, e', log)).
Proof.
  intros Hb Hl Hf Hc Hbase Hdata Hprev.
  split; [reflexivity|].
  rewrite (detect_dispatch env f data e Hb Hl Hc), Hf.
  split.
  - intros Hbs Hw Hh.
    pose proof (u16_range (Fb.width f)) as Rw.
    pose proof (u16_range (Fb.height f)) as Rh.
    unfold detect_grayscale. rewrite Hbase, Hbs.
    change (256 =? 0) with false. cbv iota.
    rewrite !blocks_u16 by lia.
    rewrite (compare_blocks_divides_by_zero _ _ (u16 (Fb.height f)))
      by (assumption || lia).
    reflexivity.
  - intros Hbs Hsq.
    rewrite (detect_grayscale_ok env f data e prev Hbase Hbs Hsq Hdata Hprev).
    destruct (assemble _ _ _ _ _ _ _) as [[r d'] log].
    exists r, {| this := d'; statics := statics e |}, log. reflexivity.
Qed.

Lemma blockSize_256_divides_by_zero_witness :
  detect (at_time 5000) (Some (gray_frame 256 256 black256)) wide_block_engine
  = Fault DivisionByZero /\
  exists r e' log,
    detect (at_time 5000) (Some small_frame) small_engine = Ok (r, e', log).
Proof.
  split.
  - assert (Fb.len (gray_frame 256 256 black256) <> 0) as Hlen
      by (vm_compute; discriminate).
    assert (u16 256 * u16 256 <= Z.of_nat (length black256)) as Hsz
      by (vm_compute; discriminate).
    destruct (blockSize_256_divides_by_zero (at_time 5000)
                (gray_frame 256 256 black256) black256 wide_block_engine black256
                eq_refl Hlen eq_refl eq_refl eq_refl Hsz Hsz) as [_ [H _]].
    apply H.
    + reflexivity.
    + vm_compute. discriminate.
    + vm_compute. discriminate.
  - assert (Fb.len small_frame <> 0) as Hlen by (vm_compute; discriminate).
    assert (u16 8 * u16 8 <= Z.of_nat (length (one_block_frame 8 8 2 1 2 x64))) as Hsz
      by (vm_compute; discriminate).
    assert (u16 8 * u16 8 <= Z.of_nat (length black8)) as Hsz'
      by (vm_compute; discriminate).
    destruct (blockSize_256_divides_by_zero (at_time 5000) small_frame
                (one_block_frame 8 8 2 1 2 x64) small_engine black8
                eq_refl Hlen eq_refl eq_refl eq_refl Hsz Hsz') as [_ [_ H]].
    apply H.
    + reflexivity.
    + reflexivity.
Defined.

(** ** The localized change on a 64 x 64 frame *)

Lemma assemble_accepts env cfg w h total sc d r1 log1 :
  0 < changed sc ->
  apply_size_filter cfg (measure cfg w h total sc) = (r1, log1) ->
  detected r1 = true ->
  assemble env cfg w h total sc d =
    (set_confidence (block_confidence (changedBlocks r1) (totalBlocks r1)) r1,
     set_lastDetectionTime (millis_accept env) d,
     log1 ++ [LogDetected (x r1) (y r1) (width r1) (height r1) (sizePercent r1)
                (block_confidence (changedBlocks r1) (totalBlocks r1))]).
Proof.
  intros Hch Hfilter Hdet. unfold assemble.
  apply Z.ltb_lt in Hch. rewrite Hch, Hfilter.
  cbn [detected set_confidence]. rewrite Hdet. reflexivity.
Qed.

(** *** The frame with one block at 100 *)

Lemma zsum_ext (f g : Z -> Z) (l : list Z) :
  (forall i, In i l -> f i = g i) -> zsum f l = zsum g l.
Proof.
  induction l as [|a l IH]; intros H; [reflexivity|].
  cbn [zsum fold_right]. fold (zsum f l). fold (zsum g l).
  rewrite (H a (or_introl eq_refl)), IH; [reflexivity|].
  intros i Hi. apply H. right. exact Hi.
Qed.

Lemma zsum_const (c n : Z) : 0 <= n -> zsum (fun _ => c) (range n) = n * c.
Proof.
  intros Hn. rewrite <- (Z2Nat.id n Hn) at 2. unfold range.
  induction (Z.to_nat n) as [|k IH]; [reflexivity|].
  rewrite seq_S, map_app, zsum_app, IH. cbn [map zsum fold_right]. lia.
Qed.

Lemma fold_left_ext_in {St A : Type} (f g : St -> A -> St) (l : list A) :
  (forall a s, In a l -> f s a = g s a) ->
  forall s, fold_left f l s = fold_left g l s.
Proof.
  induction l as [|a l IH]; intros H s; [reflexivity|].
  cbn [fold_left]. rewrite (H a s (or_introl eq_refl)).
  apply IH. intros a' s' Ha'. apply H. right. exact Ha'.
Qed.

Lemma in_grid (blocksX blocksY : Z) (b : Z * Z) :
  In b (grid blocksX blocksY) ->
  0 <= fst b < blocksX /\ 0 <= snd b < blocksY.
Proof.
  unfold grid. rewrite in_flat_map. intros [by_ [Hy Hb]].
  apply in_map_iff in Hb. destruct Hb as [bx [<- Hx]].
  apply in_range in Hx. apply in_range in Hy. cbn [fst snd]. lia.
Qed.

Lemma nth_map_range {A : Type} (g : Z -> A) (n i : Z) (d : A) :
  0 <= i < n -> nth (Z.to_nat i) (map g (range n)) d = g i.
Proof.
  intros Hi. unfold range. rewrite map_map.
  rewrite (nth_indep _ d (g (Z.of_nat 0)))
    by (rewrite length_map, length_seq; lia).
  rewrite (map_nth (fun k => g (Z.of_nat k))).
  rewrite seq_nth by lia. cbn [Nat.add]. rewrite Z2Nat.id by lia. reflexivity.
Qed.

Lemma pixel_one_block_frame (w h bs bx by_ : Z) (v : byte) (i : Z) :
  0 <= i < w * h ->
  pixel (one_block_frame w h bs bx by_ v) i
  = if (i / w / bs =? by_) && (i mod w / bs =? bx)
    then Z.of_N (Byte.to_N v) else 0.
Proof.
  intros Hi. unfold pixel, one_block_frame.
  rewrite nth_map_range by exact Hi.
  destruct ((i / w / bs =? by_) && (i mod w / bs =? bx)); reflexivity.
Qed.

Lemma pixel_black (n : nat) (i : Z) : pixel (repeat x00 n) i = 0.
Proof. unfold pixel. rewrite nth_repeat. reflexivity. Qed.

(** Against the black baseline, the block at 100 sums to [256 * 100] and
    every other block to 0. *)
Lemma one_block_sum_64 bx by_ bx' by_' :
  0 <= bx' < 4 -> 0 <= by_' < 4 ->
  block_abs_diff_sum 16 64 (one_block_frame 64 64 16 bx by_ x64) black64 bx' by_'
  = if (by_' =? by_) && (bx' =? bx) then 25600 else 0.
Proof.
  intros Hx Hy. unfold block_abs_diff_sum.
  rewrite (zsum_ext _ (fun _ => 16 * (if (by_' =? by_) && (bx' =? bx) then 100 else 0))).
  - rewrite zsum_const by lia.
    destruct ((by_' =? by_) && (bx' =? bx)); reflexivity.
  - intros py Hpy. apply in_range in Hpy.
    rewrite (zsum_ext _ (fun _ => if (by_' =? by_) && (bx' =? bx) then 100 else 0)).
    + apply zsum_const. lia.
    + intros px Hpx. apply in_range in Hpx. cbv zeta.
      unfold black64. rewrite pixel_black, pixel_one_block_frame by lia.
      assert (((by_' * 16 + py) * 64 + (bx' * 16 + px)) / 64 = by_' * 16 + py) as ->
        by (symmetry; apply (Z.div_unique _ _ _ (bx' * 16 + px)); lia).
      assert (((by_' * 16 + py) * 64 + (bx' * 16 + px)) mod 64 = bx' * 16 + px) as ->
        by (symmetry; apply (Z.mod_unique _ _ (by_' * 16 + py)); lia).
      assert ((by_' * 16 + py) / 16 = by_') as ->
        by (symmetry; apply (Z.div_unique _ _ _ py); lia).
      assert ((bx' * 16 + px) / 16 = bx') as ->
        by (symmetry; apply (Z.div_unique _ _ _ px); lia).
      destruct ((by_' =? by_) && (bx' =? bx)); reflexivity.
Qed.

Lemma scan_grid_one_block_64 bx by_ :
  0 <= bx < 4 -> 0 <= by_ < 4 ->
  scan_grid 16 64 (one_block_frame 64 64 16 bx by_ x64) black64 25 4 4
  = {| changed := 1; minX := bx; minY := by_; maxX := bx; maxY := by_ |}.
Proof.
  intros Hbx Hby. unfold scan_grid.
  rewrite (fold_left_ext_in _
             (fun st b => if (snd b =? by_) && (fst b =? bx)
                          then note_changed (fst b) (snd b) st else st)).
  - assert (bx = 0 \/ bx = 1 \/ bx = 2 \/ bx = 3) as Cx by lia.
    assert (by_ = 0 \/ by_ = 1 \/ by_ = 2 \/ by_ = 3) as Cy by lia.
    clear Hbx Hby.
    destruct Cx as [->|[->|[->| ->]]]; destruct Cy as [->|[->|[->| ->]]];
      vm_compute; reflexivity.
  - intros b st Hb. apply in_grid in Hb. destruct Hb as [Hx Hy].
    unfold truncated_mean_exceeds, truncated_mean.
    rewrite one_block_sum_64 by assumption.
    destruct ((snd b =? by_) && (fst b =? bx)); reflexivity.
Qed.

(** The block loops on that frame find the block and no other. *)
Lemma compare_blocks_one_block_64 bx by_ :
  0 <= bx < 4 -> 0 <= by_ < 4 ->
  compare_blocks default_config 64 (one_block_frame 64 64 16 bx by_ x64) black64 4 4
  = Ok {| changed := 1; minX := bx; minY := by_; maxX := bx; maxY := by_ |}.
Proof.
  intros Hbx Hby.
  rewrite <- (scan_grid_one_block_64 bx by_ Hbx Hby).
  apply (compare_blocks_ok default_config 64 64).
  - reflexivity.
  - lia.
  - lia.
  - unfold one_block_frame. rewrite length_map, range_length. discriminate.
  - unfold black64. rewrite repeat_length. discriminate.
  - reflexivity.
Qed.

(** C1: a new detector with the default configuration (blocks of 16,
    threshold 25, size bounds 1 and 30 percent) is given a black 64 x 64
    frame and then the same frame with the 16 x 16 block ([bx], [by_]) at
    value 100, the cooldown being over at both calls and the baseline
    stored by the first. The second call returns 16 blocks of which 1
    changed, the box of that block, 6.25 percent, [detected] without
    [sizeFiltered], and the confidence 0.3125. *)
Theorem localized_change_64 bx by_ env1 env2 :
  0 <= bx < 4 -> 0 <= by_ < 4 ->
  cooldown_active env1 MotionDetector_ctor = false ->
  malloc_spiram env1 || malloc_internal env1 = true ->
  cooldown_active env2 MotionDetector_ctor = false ->
  exists e1 log1 r e2 log2,
    detect env1 (Some (gray_frame 64 64 black64)) initial_engine
    = Ok (no_detection, e1, log1) /\
    detect env2 (Some (gray_frame 64 64 (one_block_frame 64 64 16 bx by_ x64))) e1
    = Ok (r, e2, log2) /\
    totalBlocks r = 16 /\ changedBlocks r = 1 /\
    x r = 16 * bx /\ y r = 16 * by_ /\ width r = 16 /\ height r = 16 /\
    float_value (sizePercent r) = Some (25 # 4)%Q /\
    detected r = true /\ sizeFiltered r = false /\
    float_value (confidence r) = Some (5 # 16)%Q.
Proof.
  intros Hbx Hby Hc1 Hm Hc2.
  exists (engine_with_baseline default_config 64 64 black64), [LogAllocated 4096].
  assert (detect env1 (Some (gray_frame 64 64 black64)) initial_engine
          = Ok (no_detection, engine_with_baseline default_config 64 64 black64,
                [LogAllocated 4096])) as First.
  { rewrite (detect_first_observation env1 (gray_frame 64 64 black64) black64
               initial_engine).
    - vm_compute. reflexivity.
    - reflexivity.
    - vm_compute. discriminate.
    - reflexivity.
    - exact Hc1.
    - reflexivity.
    - exact Hm.
    - vm_compute. discriminate. }
  set (cur := one_block_frame 64 64 16 bx by_ x64).
  set (sc := {| changed := 1; minX := bx; minY := by_; maxX := bx; maxY := by_ |}).
  set (r1 := {| detected := true; sizeFiltered := false;
                x := 16 * bx; y := 16 * by_; width := 16; height := 16;
                sizePercent := S754_finite false 13107200 (-21);
                changedBlocks := 1; totalBlocks := 16;
                confidence := F32.zero |}).
  assert (length cur = 4096%nat) as Lcur.
  { unfold cur, one_block_frame. rewrite length_map, range_length. reflexivity. }
  assert (u16 (minX sc * 16) = 16 * bx /\ u16 (minY sc * 16) = 16 * by_) as [Ex Ey].
  { cbn [minX minY sc]. rewrite !u16_small by lia. lia. }
  assert (apply_size_filter default_config (measure default_config 64 64 16 sc)
          = (r1, [])) as Filter.
  { unfold measure. cbn [blockSize default_config]. rewrite Ex, Ey.
    cbn [maxX minX maxY minY sc].
    replace (bx - bx + 1) with 1 by lia. replace (by_ - by_ + 1) with 1 by lia.
    vm_compute. reflexivity. }
  eexists _, _, _.
  split; [exact First|]. split.
  - rewrite (detect_dispatch env2 (gray_frame 64 64 cur) cur
               (engine_with_baseline default_config 64 64 black64)).
    + cbn [Fb.format gray_frame].
      rewrite (detect_grayscale_steps env2 (gray_frame 64 64 cur) cur
                 (engine_with_baseline default_config 64 64 black64) black64 sc
                 (firstn 4096 cur ++ skipn 4096 black64)).
      * change (config (this (engine_with_baseline default_config 64 64 black64)))
          with default_config.
        change (u16 (Fb.width (gray_frame 64 64 cur))) with 64.
        change (u16 (Fb.height (gray_frame 64 64 cur))) with 64.
        change (u32 (u16 (64 / blockSize default_config)
                     * u16 (64 / blockSize default_config))) with 16.
        rewrite (assemble_accepts env2 default_config 64 64 16 sc _ r1 []);
          [reflexivity|reflexivity|exact Filter|reflexivity].
      * reflexivity.
      * discriminate.
      * apply compare_blocks_one_block_64; assumption.
      * change (u32 (u16 (Fb.width (gray_frame 64 64 cur))
                     * u16 (Fb.height (gray_frame 64 64 cur)))) with 4096.
        rewrite memcpy_ok; [reflexivity| |].
        -- rewrite Lcur. discriminate.
        -- vm_compute. discriminate.
    + reflexivity.
    + cbn [Fb.len gray_frame]. rewrite Lcur. discriminate.
    + exact Hc2.
  - cbn [totalBlocks changedBlocks x y width height sizePercent detected
         sizeFiltered confidence set_confidence r1].
    repeat split; try reflexivity; vm_compute; reflexivity.
Qed.

Lemma localized_change_64_witness :
  exists e1 log1 r e2 log2,
    detect (at_time 5000) (Some (gray_frame 64 64 black64)) initial_engine
    = Ok (no_detection, e1, log1) /\
    detect (at_time 5100)
           (Some (gray_frame 64 64 (one_block_frame 64 64 16 2 1 x64))) e1
    = Ok (r, e2, log2) /\
    totalBlocks r = 16 /\ changedBlocks r = 1 /\
    x r = 16 * 2 /\ y r = 16 * 1 /\ width r = 16 /\ height r = 16 /\
    float_value (sizePercent r) = Some (25 # 4)%Q /\
    detected r = true /\ sizeFiltered r = false /\
    float_value (confidence r) = Some (5 # 16)%Q.
Proof.
  apply (localized_change_64 2 1 (at_time 5000) (at_time 5100)).
  - lia.
  - lia.
  - vm_compute. reflexivity.
  - reflexivity.
  - vm_compute. reflexivity.
Defined.

(** ** The stored frame always holds its dimensions

    The comparison theorems assume that the baseline buffer holds
    [prevWidth * prevHeight] bytes. That is an invariant of the engine: it
    holds for a new detector and every call that returns keeps it. *)

Lemma memcpy_length dst src n out :
  0 <= n -> memcpy dst src n = Ok out -> length out = length dst.
Proof.
  intros Hn. unfold memcpy.
  destruct ((n <=? Z.of_nat (length src)) && (n <=? Z.of_nat (length dst))) eqn:C;
    [|discriminate].
  apply andb_true_iff in C. destruct C as [Cs Cd].
  apply Z.leb_le in Cs. apply Z.leb_le in Cd.
  intros H. inversion H; subst out.
  rewrite length_app, length_firstn, length_skipn. lia.
Qed.

Lemma assemble_keeps_buffer env cfg w h total sc d :
  let d' := snd (fst (assemble env cfg w h total sc d)) in
  prevFrame d' = prevFrame d /\ prevWidth d' = prevWidth d /\
  prevHeight d' = prevHeight d.
Proof.
  unfold assemble. destruct (0 <? changed sc); [|repeat split].
  destruct (apply_size_filter cfg (measure cfg w h total sc)) as [r1 log1].
  destruct (detected (set_confidence _ r1)); repeat split.
Qed.

Lemma detect_keeps_baseline_fits env frame e r e' log :
  baseline_fits (this e) ->
  detect env frame e = Ok (r, e', log) ->
  baseline_fits (this e').
Proof.
  intros Hfit H. unfold detect in H.
  destruct frame as [f|]; [|returned H].
  destruct (Fb.buf f) as [data|]; [|returned H].
  destruct (Fb.len f =? 0); [returned H|].
  destruct (cooldown_active env (this e)); [returned H|].
  destruct (Fb.format f); try (returned H).
  - (* grayscale *)
    unfold detect_grayscale in H.
    pose proof (frame_size_u32 (Fb.width f) (Fb.height f)) as R.
    destruct (baseline (this e) _ _) as [prev|] eqn:B.
    + destruct (blockSize (config (this e)) =? 0); [discriminate|].
      destruct (compare_blocks _ _ _ _ _ _) as [sc|]; [|discriminate].
      cbn [bind] in H.
      destruct (memcpy prev data _) as [prev'|] eqn:M; [|discriminate].
      cbn [bind] in H.
      apply memcpy_length in M; [|apply u32_range].
      pose proof (assemble_keeps_buffer env (config (this e))
                    (u16 (Fb.width f)) (u16 (Fb.height f))
                    (u32 (u16 (u16 (Fb.width f) / blockSize (config (this e)))
                          * u16 (u16 (Fb.height f) / blockSize (config (this e)))))
                    sc (set_prevFrame (Some prev') (this e))) as K.
      destruct (assemble _ _ _ _ _ _ _) as [[r0 d0] log0].
      cbn [fst snd set_prevFrame prevFrame prevWidth prevHeight] in K.
      destruct K as [Kp [Kw Kh]].
      inversion H; subst. cbn [this].
      unfold baseline_fits in *. rewrite Kp, Kw, Kh.
      unfold baseline in B.
      destruct (prevFrame (this e)) as [p|]; [|discriminate].
      destruct ((prevWidth (this e) =? _) && _); [|discriminate].
      inversion B; subst p. rewrite M. exact Hfit.
    + unfold allocatePrevFrame in H.
      destruct (if malloc_spiram env
                then Some (repeat x00 (Z.to_nat (u32 (u16 (Fb.width f) * u16 (Fb.height f)))))
                else if malloc_internal env
                     then Some (repeat x00 (Z.to_nat (u32 (u16 (Fb.width f) * u16 (Fb.height f)))))
                     else None) as [b|] eqn:A.
      * assert (b = repeat x00 (Z.to_nat (u32 (u16 (Fb.width f) * u16 (Fb.height f))))) as Eb.
        { destruct (malloc_spiram env); [inversion A; reflexivity|].
          destruct (malloc_internal env); [inversion A; reflexivity|discriminate]. }
        cbn [prevFrame] in H.
        destruct (memcpy b data _) as [p'|] eqn:M; [|discriminate].
        cbn [bind] in H. inversion H; subst r e' log.
        apply memcpy_length in M; [|apply u32_range].
        unfold baseline_fits. cbn.
        rewrite M, Eb, repeat_length, u32_small by exact R. lia.
      * cbn [prevFrame] in H. inversion H; subst. exact I.
  - (* JPEG *)
    unfold detectFromJpegSize in H.
    destruct (_ || _); [discriminate|].
    destruct (sum_valid _) as [sum validCount].
    destruct (_ || _); [returned H|].
    destruct (F64.ltb F64.ten _); [|returned H].
    destruct (F64.ltb _ F64.three); [cbn in H; returned H|].
    destruct (F64.ltb F64.fifty _); cbn in H; returned H.
Qed.

Lemma initial_engine_baseline_fits : baseline_fits (this initial_engine).
Proof. exact I. Qed.

Lemma reset_baseline_fits d : baseline_fits (reset d).
Proof. exact I. Qed.

(** * Further properties of the detector *)

(** ** What every call leaves alone *)

Lemma assemble_keeps_config env cfg w h total sc d :
  config (snd (fst (assemble env cfg w h total sc d))) = config d.
Proof.
  unfold assemble. destruct (0 <? changed sc); [|reflexivity].
  destruct (apply_size_filter cfg (measure cfg w h total sc)) as [r1 log1].
  destruct (detected (set_confidence _ r1)); reflexivity.
Qed.

Lemma detect_keeps_config env frame e r e' log :
  detect env frame e = Ok (r, e', log) -> config (this e') = config (this e).
Proof.
  intros H. unfold detect in H.
  destruct frame as [f|]; [|returned H].
  destruct (Fb.buf f) as [data|]; [|returned H].
  destruct (Fb.len f =? 0); [returned H|].
  destruct (cooldown_active env (this e)); [returned H|].
  destruct (Fb.format f); try returned H.
  - unfold detect_grayscale in H.
    destruct (baseline (this e) _ _) as [prev|].
    + destruct (blockSize (config (this e)) =? 0); [discriminate|].
      destruct (compare_blocks _ _ _ _ _ _) as [sc|]; [|discriminate].
      cbn [bind] in H.
      destruct (memcpy prev data _) as [prev'|]; [|discriminate].
      cbn [bind] in H.
      pose proof (assemble_keeps_config env (config (this e))
                    (u16 (Fb.width f)) (u16 (Fb.height f))
                    (u32 (u16 (u16 (Fb.width f) / blockSize (config (this e)))
                          * u16 (u16 (Fb.height f) / blockSize (config (this e)))))
                    sc (set_prevFrame (Some prev') (this e))) as K.
      destruct (assemble _ _ _ _ _ _ _) as [[r0 d0] log0].
      cbn [fst snd] in K. inversion H; subst. exact K.
    + unfold allocatePrevFrame in H.
      destruct (malloc_spiram env); [|destruct (malloc_internal env)];
        cbn [prevFrame] in H;
        try (destruct (memcpy _ data _); [|discriminate]; cbn [bind] in H);
        returned H.
  - unfold detectFromJpegSize in H.
    destruct (_ || _); [discriminate|].
    destruct (sum_valid _) as [sum validCount].
    destruct (_ || _); [returned H|].
    destruct (F64.ltb F64.ten _); [|returned H].
    destruct (F64.ltb _ F64.three); [cbn in H; returned H|].
    destruct (F64.ltb F64.fifty _); cbn in H; returned H.
Qed.

Lemma detect_lastDetectionTime env frame e r e' log :
  detect env frame e = Ok (r, e', log) ->
  lastDetectionTime (this e') =
    if detected r then millis_accept env else lastDetectionTime (this e).
Proof.
  intros H. unfold detect in H.
  destruct frame as [f|]; [|returned H].
  destruct (Fb.buf f) as [data|]; [|returned H].
  destruct (Fb.len f =? 0); [returned H|].
  destruct (cooldown_active env (this e)); [returned H|].
  destruct (Fb.format f); try returned H.
  - apply (detect_grayscale_lastDetectionTime _ _ _ _ _ _ _ H).
  - apply (detectFromJpegSize_lastDetectionTime _ _ _ _ _ _ H).
Qed.

(** ** The cooldown after an accepted detection *)

(** After a call that reported motion, every valid frame submitted while
    the clock is less than [cooldownMs] past the reading taken at the
    acceptance gets the all-false result and leaves the engine as that call
    left it. *)
Theorem cooldown_follows_acceptance env1 env2 frame1 f2 data2 e r1 e1 log1 :
  detect env1 frame1 e = Ok (r1, e1, log1) ->
  detected r1 = true ->
  Fb.buf f2 = Some data2 -> Fb.len f2 <> 0 ->
  u32 (millis_entry env2 - millis_accept env1) < cooldownMs (config (this e)) ->
  detect env2 (Some f2) e1 = Ok (no_detection, e1, []).
Proof.
  intros H1 D Hb Hl Hc.
  pose proof (detect_lastDetectionTime _ _ _ _ _ _ H1) as L. rewrite D in L.
  pose proof (detect_keeps_config _ _ _ _ _ _ H1) as K.
  unfold detect. rewrite Hb. apply Z.eqb_neq in Hl. rewrite Hl.
  unfold cooldown_active. rewrite L, K.
  apply Z.ltb_lt in Hc. rewrite Hc. reflexivity.
Qed.

Lemma cooldown_follows_acceptance_witness :
  exists r1 e1 log1,
    detect (at_time 5000) (Some small_frame) small_engine = Ok (r1, e1, log1) /\
    detected r1 = true /\
    detect (at_time 6999) (Some (gray_frame 8 8 black8)) e1
    = Ok (no_detection, e1, []).
Proof.
  destruct (detect (at_time 5000) (Some small_frame) small_engine)
    as [[[r1 e1] log1]|] eqn:E; [|vm_compute in E; discriminate].
  assert (detected r1 = true) as D by (vm_compute in E; inversion E; reflexivity).
  exists r1, e1, log1. split; [reflexivity|]. split; [exact D|].
  apply (cooldown_follows_acceptance (at_time 5000) (at_time 6999)
           (Some small_frame) (gray_frame 8 8 black8) black8 small_engine
           r1 e1 log1 E D).
  - reflexivity.
  - vm_compute. discriminate.
  - vm_compute. reflexivity.
Defined.

(** ** The two flags *)

Lemma assemble_flags env cfg w h total sc d :
  let r := fst (fst (assemble env cfg w h total sc d)) in
  detected r = true -> sizeFiltered r = false.
Proof.
  cbv zeta. unfold assemble. destruct (0 <? changed sc); [|discriminate].
  unfold apply_size_filter.
  destruct (F32.ltb _ _); [|destruct (F32.ltb _ _)];
    cbn [detected sizeFiltered set_flags set_confidence measure fst];
    congruence.
Qed.

(** No call returns a result that is both [detected] and [sizeFiltered]:
    what the size filter rejects is never reported as motion, on either
    path. *)
Theorem detected_excludes_sizeFiltered env frame e r e' log :
  detect env frame e = Ok (r, e', log) ->
  detected r = true -> sizeFiltered r = false.
Proof.
  intros H. unfold detect in H.
  destruct frame as [f|]; [|returned H].
  destruct (Fb.buf f) as [data|]; [|returned H].
  destruct (Fb.len f =? 0); [returned H|].
  destruct (cooldown_active env (this e)); [returned H|].
  destruct (Fb.format f); try returned H.
  - unfold detect_grayscale in H.
    destruct (baseline (this e) _ _) as [prev|].
    + destruct (blockSize (config (this e)) =? 0); [discriminate|].
      destruct (compare_blocks _ _ _ _ _ _) as [sc|]; [|discriminate].
      cbn [bind] in H.
      destruct (memcpy prev data _) as [prev'|]; [|discriminate].
      cbn [bind] in H.
      pose proof (assemble_flags env (config (this e))
                    (u16 (Fb.width f)) (u16 (Fb.height f))
                    (u32 (u16 (u16 (Fb.width f) / blockSize (config (this e)))
                          * u16 (u16 (Fb.height f) / blockSize (config (this e)))))
                    sc (set_prevFrame (Some prev') (this e))) as K.
      destruct (assemble _ _ _ _ _ _ _) as [[r0 d0] log0].
      cbn [fst] in K. inversion H; subst. exact K.
    + destruct (allocatePrevFrame _ _ _ _) as [d1 log1].
      destruct (prevFrame d1) as [p|];
        try (destruct (memcpy p data _); [|discriminate]; cbn [bind] in H);
        returned H.
  - unfold detectFromJpegSize in H.
    destruct (_ || _); [discriminate|].
    destruct (sum_valid _) as [sum validCount].
    destruct (_ || _); [returned H|].
    destruct (F64.ltb F64.ten _); [|returned H].
    destruct (F64.ltb _ F64.three); [cbn in H; returned H|].
    destruct (F64.ltb F64.fifty _); cbn in H; inversion H; subst; cbn; congruence.
Qed.

Lemma detected_excludes_sizeFiltered_witness :
  exists r e' log,
    detect (at_time 5000) (Some small_frame) small_engine = Ok (r, e', log) /\
    detected r = true /\ sizeFiltered r = false.
Proof.
  destruct (detect (at_time 5000) (Some small_frame) small_engine)
    as [[[r e'] log]|] eqn:E; [|vm_compute in E; discriminate].
  assert (detected r = true) as D by (vm_compute in E; inversion E; reflexivity).
  exists r, e', log. split; [reflexivity|]. split; [exact D|].
  exact (detected_excludes_sizeFiltered _ _ _ _ _ _ E D).
Defined.

(** ** A first observation *)

(** A grayscale frame that finds no stored frame of its dimensions - the
    first frame, the first after [reset()], or the first of a new size -
    is never reported, whatever it shows: the call returns the all-false
    result and leaves the cooldown timestamp, the configuration and the
    statics alone. With memory available the frame becomes the baseline
    for its dimensions; without, the detector is left with no buffer and
    the dimensions 0. *)
Theorem first_observation_is_suppressed env f data e r e' log :
  Fb.buf f = Some data -> Fb.len f <> 0 ->
  Fb.format f = PIXFORMAT_GRAYSCALE ->
  cooldown_active env (this e) = false ->
  baseline (this e) (u16 (Fb.width f)) (u16 (Fb.height f)) = None ->
  detect env (Some f) e = Ok (r, e', log) ->
  r = no_detection /\
  lastDetectionTime (this e') = lastDetectionTime (this e) /\
  config (this e') = config (this e) /\
  statics e' = statics e /\
  if malloc_spiram env || malloc_internal env
  then baseline (this e') (u16 (Fb.width f)) (u16 (Fb.height f))
       = Some (firstn (Z.to_nat (u16 (Fb.width f) * u16 (Fb.height f))) data)
  else prevFrame (this e') = None /\ prevWidth (this e') = 0 /\
       prevHeight (this e') = 0.
Proof.
  intros Hb Hl Hf Hc Hbase H.
  pose proof (frame_size_u32 (Fb.width f) (Fb.height f)) as R.
  rewrite (detect_dispatch env f data e Hb Hl Hc), Hf in H.
  unfold detect_grayscale in H. rewrite Hbase in H.
  unfold allocatePrevFrame in H. rewrite (u32_small _ R) in H.
  destruct (malloc_spiram env || malloc_internal env) eqn:M.
  - assert ((if malloc_spiram env
             then Some (repeat x00 (Z.to_nat (u16 (Fb.width f) * u16 (Fb.height f))))
             else if malloc_internal env
                  then Some (repeat x00 (Z.to_nat (u16 (Fb.width f) * u16 (Fb.height f))))
                  else None)
            = Some (repeat x00 (Z.to_nat (u16 (Fb.width f) * u16 (Fb.height f))))) as A.
    { destruct (malloc_spiram env); [reflexivity|].
      destruct (malloc_internal env); [reflexivity|discriminate]. }
    rewrite A in H. cbn [prevFrame] in H.
    destruct (memcpy _ data _) as [p'|] eqn:C; [|discriminate].
    cbn [bind] in H. inversion H; subst r e' log. clear H.
    repeat split.
    unfold memcpy in C.
    destruct (_ && _) eqn:G; [|discriminate].
    inversion C; subst p'.
    rewrite skipn_all2 by (rewrite repeat_length; lia).
    rewrite app_nil_r.
    unfold baseline. cbn [this set_prevFrame prevFrame prevWidth prevHeight].
    rewrite !Z.eqb_refl. reflexivity.
  - apply orb_false_iff in M. destruct M as [Ms Mi].
    rewrite Ms, Mi in H. cbn [prevFrame] in H.
    inversion H; subst. repeat split.
Qed.

Lemma first_observation_is_suppressed_witness :
  exists r e' log,
    detect (at_time 5000) (Some small_frame) engine_4x4 = Ok (r, e', log) /\
    r = no_detection /\
    baseline (this e') 8 8 = Some (one_block_frame 8 8 2 1 2 x64).
Proof.
  destruct (detect (at_time 5000) (Some small_frame) engine_4x4)
    as [[[r e'] log]|] eqn:E; [|vm_compute in E; discriminate].
  assert (Fb.len small_frame <> 0) as Hlen by (vm_compute; discriminate).
  destruct (first_observation_is_suppressed (at_time 5000) small_frame
              (one_block_frame 8 8 2 1 2 x64) engine_4x4 r e' log
              eq_refl Hlen eq_refl eq_refl eq_refl E)
    as [Hr [_ [_ [_ Hbase]]]].
  exists r, e', log. split; [reflexivity|]. split; [exact Hr|]. exact Hbase.
Defined.

(** ** A block side of 0 *)

(** With [blockSize = 0] every comparison - a valid grayscale frame that
    finds its baseline, the cooldown over - divides by zero at the
    computation of the grid, whatever the frames hold. *)
Theorem blockSize_zero_divides_by_zero env f data e prev :
  Fb.buf f = Some data -> Fb.len f <> 0 ->
  Fb.format f = PIXFORMAT_GRAYSCALE ->
  cooldown_active env (this e) = false ->
  baseline (this e) (u16 (Fb.width f)) (u16 (Fb.height f)) = Some prev ->
  blockSize (config (this e)) = 0 ->
  detect env (Some f) e = Fault DivisionByZero.
Proof.
  intros Hb Hl Hf Hc Hbase Hbs.
  rewrite (detect_dispatch env f data e Hb Hl Hc), Hf.
  unfold detect_grayscale. rewrite Hbase, Hbs. reflexivity.
Qed.

Lemma blockSize_zero_divides_by_zero_witness :
  detect (at_time 5000) (Some (gray_frame 8 8 black8))
         (engine_with_baseline (config_with_blockSize 0) 8 8 black8)
  = Fault DivisionByZero.
Proof.
  apply (blockSize_zero_divides_by_zero _ _ black8 _ black8); try reflexivity.
  vm_compute. discriminate.
Defined.

(** ** A steady scene *)

Lemma zsum_zero (f : Z -> Z) (l : list Z) :
  (forall i, In i l -> f i = 0) -> zsum f l = 0.
Proof.
  induction l as [|a l IH]; intros H; [reflexivity|].
  cbn [zsum fold_right]. fold (zsum f l).
  rewrite (H a (or_introl eq_refl)), IH; [reflexivity|].
  intros i Hi. apply H. right. exact Hi.
Qed.

Lemma fold_left_unchanged {St A : Type} (f : St -> A -> St) (l : list A) (s : St) :
  (forall a s', In a l -> f s' a = s') -> fold_left f l s = s.
Proof.
  induction l as [|a l IH]; intros H; [reflexivity|].
  cbn [fold_left]. rewrite (H a s (or_introl eq_refl)).
  apply IH. intros a' s' Ha'. apply H. right. exact Ha'.
Qed.

(** Frames that agree on every pixel of the frame area leave every block
    below any threshold that is not negative. *)
Lemma scan_grid_steady cfg w h cur prev :
  0 < blockSize cfg -> 0 <= w < 2 ^ 16 -> 0 <= h < 2 ^ 16 ->
  0 <= threshold cfg ->
  (forall i, 0 <= i < w * h -> pixel cur i = pixel prev i) ->
  scan_grid (blockSize cfg) w cur prev (threshold cfg)
            (w / blockSize cfg) (h / blockSize cfg)
  = {| changed := 0; minX := w / blockSize cfg; minY := h / blockSize cfg;
       maxX := 0; maxY := 0 |}.
Proof.
  intros Hbs Hw Hh Ht Hsame. unfold scan_grid.
  apply fold_left_unchanged. intros b st Hb.
  apply in_grid in Hb. destruct Hb as [Hx Hy].
  assert (block_abs_diff_sum (blockSize cfg) w cur prev (fst b) (snd b) = 0) as Z0.
  { unfold block_abs_diff_sum.
    apply zsum_zero. intros py Hpy. apply in_range in Hpy.
    apply zsum_zero. intros px Hpx. apply in_range in Hpx. cbv zeta.
    rewrite Hsame
      by (apply (block_index_in_frame cfg w h [] []); assumption).
    rewrite Z.sub_diag. reflexivity. }
  unfold truncated_mean_exceeds, truncated_mean. rewrite Z0.
  rewrite Z.div_0_l by nia.
  replace (threshold cfg <? 0) with false by (symmetry; apply Z.ltb_ge; lia).
  reflexivity.
Qed.

Lemma assemble_unchanged env cfg w h total sc d :
  changed sc = 0 ->
  assemble env cfg w h total sc d = (steady_result total, d, []).
Proof.
  intros H. unfold assemble, steady_result. rewrite H. reflexivity.
Qed.

Lemma pixel_firstn (n : Z) (b : list byte) (i : Z) :
  0 <= i < n -> pixel (firstn (Z.to_nat n) b) i = pixel b i.
Proof.
  intros Hi. unfold pixel. rewrite nth_firstn.
  replace (Z.to_nat i <? Z.to_nat n)%nat with true
    by (symmetry; apply Nat.ltb_lt; lia).
  reflexivity.
Qed.

(** The same grayscale frame submitted twice, the first time as a first
    observation with memory available, the cooldown over at both calls,
    with [0 < blockSize], [blockSize * blockSize < 65536] and a threshold
    that is not negative: the first call stores it, the second finds no
    changed block among the [(width / blockSize) * (height / blockSize)] it
    compares, reports nothing and leaves the engine exactly as the first
    call left it. *)
Theorem same_frame_twice env1 env2 f data e :
  Fb.buf f = Some data -> Fb.len f <> 0 ->
  Fb.format f = PIXFORMAT_GRAYSCALE ->
  cooldown_active env1 (this e) = false ->
  cooldown_active env2 (this e) = false ->
  baseline (this e) (u16 (Fb.width f)) (u16 (Fb.height f)) = None ->
  malloc_spiram env1 || malloc_internal env1 = true ->
  0 < blockSize (config (this e)) ->
  blockSize (config (this e)) * blockSize (config (this e)) < 65536 ->
  0 <= threshold (config (this e)) ->
  u16 (Fb.width f) * u16 (Fb.height f) <= Z.of_nat (length data) ->
  exists e1 log1,
    detect env1 (Some f) e = Ok (no_detection, e1, log1) /\
    detect env2 (Some f) e1
    = Ok (steady_result ((u16 (Fb.width f) / blockSize (config (this e)))
                         * (u16 (Fb.height f) / blockSize (config (this e)))),
          e1, []).
Proof.
  intros Hb Hl Hf Hc1 Hc2 Hbase Hm Hbs Hsq Ht Hlen.
  pose proof (u16_range (Fb.width f)) as Hw.
  pose proof (u16_range (Fb.height f)) as Hh.
  set (w := u16 (Fb.width f)) in *. set (h := u16 (Fb.height f)) in *.
  set (stored := firstn (Z.to_nat (w * h)) data).
  set (e1 := {| this := {| config := config (this e);
                           prevFrame := Some stored;
                           prevWidth := w; prevHeight := h;
                           lastDetectionTime := lastDetectionTime (this e) |};
                statics := statics e |}).
  exists e1, [LogAllocated (w * h)].
  split.
  { apply (detect_first_observation env1 f data e); assumption. }
  assert (length stored = Z.to_nat (w * h)) as Ls.
  { unfold stored. rewrite length_firstn. lia. }
  assert (baseline (this e1) w h = Some stored) as B1.
  { unfold baseline. cbn. rewrite !Z.eqb_refl. reflexivity. }
  rewrite (detect_dispatch env2 f data e1 Hb Hl Hc2), Hf.
  rewrite (detect_grayscale_ok env2 f data e1 stored B1 Hbs Hsq Hlen)
    by (rewrite Ls; lia).
  fold w h. change (config (this e1)) with (config (this e)).
  rewrite (scan_grid_steady (config (this e)) w h data stored Hbs Hw Hh Ht)
    by (intros i Hi; unfold stored; rewrite pixel_firstn by exact Hi; reflexivity).
  rewrite assemble_unchanged by reflexivity.
  pose proof (blocks_bounds w (blockSize (config (this e))) ltac:(lia) Hbs) as HX.
  pose proof (blocks_bounds h (blockSize (config (this e))) ltac:(lia) Hbs) as HY.
  rewrite u32_small by nia.
  assert (firstn (Z.to_nat (w * h)) data ++ skipn (Z.to_nat (w * h)) stored = stored) as ->.
  { rewrite skipn_all2 by lia. apply app_nil_r. }
  reflexivity.
Qed.

Lemma same_frame_twice_witness :
  exists e1 log1,
    detect (at_time 5000) (Some small_frame) small_fresh_engine
    = Ok (no_detection, e1, log1) /\
    detect (at_time 5040) (Some small_frame) e1 = Ok (steady_result 16, e1, []).
Proof.
  assert (Fb.len small_frame <> 0) as Hlen by (vm_compute; discriminate).
  apply (same_frame_twice (at_time 5000) (at_time 5040) small_frame
           (one_block_frame 8 8 2 1 2 x64) small_fresh_engine eq_refl Hlen);
    try reflexivity.
  vm_compute. discriminate.
Defined.

(** ** The block counts *)

Lemma assemble_counts env cfg w h total sc d :
  let r := fst (fst (assemble env cfg w h total sc d)) in
  totalBlocks r = total /\ changedBlocks r = changed sc /\
  (changed sc <= 0 -> detected r = false /\ sizeFiltered r = false).
Proof.
  cbv zeta. unfold assemble. destruct (0 <? changed sc) eqn:C.
  - apply Z.ltb_lt in C. unfold apply_size_filter.
    destruct (F32.ltb _ _); [|destruct (F32.ltb _ _)];
      cbn [detected sizeFiltered totalBlocks changedBlocks set_flags
           set_confidence measure fst];
      (repeat split; try reflexivity; lia).
  - cbn [fst totalBlocks changedBlocks detected sizeFiltered].
    repeat split; reflexivity.
Qed.

(** A comparison (baseline present, cooldown over, [0 < blockSize],
    [blockSize * blockSize < 65536], buffers holding the frame) analyses
    [totalBlocks = (width / blockSize) * (height / blockSize)] blocks - the
    pixels right of and below the last whole block are not looked at -,
    counts between 0 and [totalBlocks] of them as changed, and sets
    [detected] or [sizeFiltered] only when at least one changed. A frame
    narrower or lower than a block has no block at all. *)
Theorem block_counts env f data e prev r e' log :
  Fb.buf f = Some data -> Fb.len f <> 0 ->
  Fb.format f = PIXFORMAT_GRAYSCALE ->
  cooldown_active env (this e) = false ->
  baseline (this e) (u16 (Fb.width f)) (u16 (Fb.height f)) = Some prev ->
  0 < blockSize (config (this e)) ->
  blockSize (config (this e)) * blockSize (config (this e)) < 65536 ->
  u16 (Fb.width f) * u16 (Fb.height f) <= Z.of_nat (length data) ->
  u16 (Fb.width f) * u16 (Fb.height f) <= Z.of_nat (length prev) ->
  detect env (Some f) e = Ok (r, e', log) ->
  let bs := blockSize (config (this e)) in
  totalBlocks r = (u16 (Fb.width f) / bs) * (u16 (Fb.height f) / bs) /\
  0 <= changedBlocks r <= totalBlocks r /\
  (detected r = true \/ sizeFiltered r = true -> 0 < changedBlocks r) /\
  (u16 (Fb.width f) < bs \/ u16 (Fb.height f) < bs -> totalBlocks r = 0).
Proof.
  intros Hb Hl Hf Hc Hbase Hbs Hsq Hdata Hprev H bs.
  pose proof (u16_range (Fb.width f)) as Hw.
  pose proof (u16_range (Fb.height f)) as Hh.
  rewrite (detect_dispatch env f data e Hb Hl Hc), Hf in H.
  rewrite (detect_grayscale_ok env f data e prev Hbase Hbs Hsq Hdata Hprev) in H.
  set (w := u16 (Fb.width f)) in *. set (h := u16 (Fb.height f)) in *.
  fold bs in H, Hbs, Hsq.
  pose proof (blocks_bounds w bs ltac:(lia) Hbs) as HX.
  pose proof (blocks_bounds h bs ltac:(lia) Hbs) as HY.
  set (sc := scan_grid bs w data prev (threshold (config (this e))) (w / bs) (h / bs)) in *.
  assert (0 <= changed sc <= (w / bs) * (h / bs)) as Hcount.
  { unfold sc, scan_grid. rewrite changed_count.
    - cbn [changed].
      pose proof (filter_length_le
                    (truncated_mean_exceeds bs w data prev (threshold (config (this e))))
                    (grid (w / bs) (h / bs))) as Hle.
      pose proof (grid_length (w / bs) (h / bs) ltac:(lia) ltac:(lia)) as Hg.
      lia.
    - cbn [changed]. lia.
    - cbn [changed]. rewrite grid_length by lia. nia. }
  pose proof (assemble_counts env (config (this e)) w h
                (u32 (w / bs * (h / bs))) sc
                (set_prevFrame
                   (Some (firstn (Z.to_nat (w * h)) data
                          ++ skipn (Z.to_nat (w * h)) prev)) (this e))) as K.
  destruct (assemble _ _ _ _ _ _ _) as [[r0 d0] log0].
  cbn [fst] in K. destruct K as [Kt [Kc Kz]].
  inversion H; subst r0. clear H.
  rewrite u32_small in Kt by nia.
  rewrite Kt, Kc. split; [reflexivity|]. split; [exact Hcount|]. split.
  - intros Hflag.
    destruct (Z.ltb_spec 0 (changed sc)) as [Hpos|Hnon]; [exact Hpos|].
    destruct (Kz Hnon) as [Kd Kf]. rewrite Kd, Kf in Hflag.
    destruct Hflag; discriminate.
  - intros [Hsmall|Hsmall].
    + rewrite (Z.div_small w bs) by lia. reflexivity.
    + rewrite (Z.div_small h bs) by lia. lia.
Qed.

Lemma block_counts_witness :
  exists r e' log,
    detect (at_time 5000) (Some small_frame) small_engine = Ok (r, e', log) /\
    totalBlocks r = (u16 8 / 2) * (u16 8 / 2) /\
    0 <= changedBlocks r <= totalBlocks r.
Proof.
  destruct (detect (at_time 5000) (Some small_frame) small_engine)
    as [[[r e'] log]|] eqn:E; [|vm_compute in E; discriminate].
  assert (Fb.len small_frame <> 0) as Hlen by (vm_compute; discriminate).
  assert (u16 8 * u16 8 <= Z.of_nat (length (one_block_frame 8 8 2 1 2 x64))) as Hsz
    by (vm_compute; discriminate).
  assert (u16 8 * u16 8 <= Z.of_nat (length black8)) as Hsz'
    by (vm_compute; discriminate).
  destruct (block_counts (at_time 5000) small_frame
              (one_block_frame 8 8 2 1 2 x64) small_engine black8 r e' log
              eq_refl Hlen eq_refl eq_refl eq_refl eq_refl eq_refl Hsz Hsz' E)
    as [Ht [Hc _]].
  exists r, e', log. split; [reflexivity|]. split; [exact Ht|exact Hc].
Defined.

(** ** The bounding box *)

Section Box.
Variable marked : Z * Z -> bool.
Variables blocksX blocksY : Z.

Lemma box_of_note_changed (m : list (Z * Z)) (st : scan) (b : Z * Z) :
  (forall b', In b' m -> 0 <= fst b' < blocksX /\ 0 <= snd b' < blocksY) ->
  0 <= fst b < blocksX -> 0 <= snd b < blocksY ->
  box_of blocksX blocksY m st ->
  box_of blocksX blocksY (m ++ [b]) (note_changed (fst b) (snd b) st).
Proof.
  intros Hm Hx Hy [[-> [Ex [Ey [Fx Fy]]]]|[Hne [Hcov [[b1 [I1 E1]] [[b2 [I2 E2]]
                                            [[b3 [I3 E3]] [b4 [I4 E4]]]]]]]].
  - right. split; [discriminate|].
    cbn [app note_changed minX minY maxX maxY]. rewrite Ex, Ey, Fx, Fy.
    replace (fst b <? blocksX) with true by (symmetry; apply Z.ltb_lt; lia).
    replace (snd b <? blocksY) with true by (symmetry; apply Z.ltb_lt; lia).
    assert ((if 0 <? fst b then fst b else 0) = fst b) as ->
      by (destruct (Z.ltb_spec 0 (fst b)); lia).
    assert ((if 0 <? snd b then snd b else 0) = snd b) as ->
      by (destruct (Z.ltb_spec 0 (snd b)); lia).
    split.
    + intros b' [<-|[]]. lia.
    + repeat split; exists b; (split; [left; reflexivity|reflexivity]).
  - right. split; [destruct m; discriminate|].
    cbn [note_changed minX minY maxX maxY].
    split; [|split; [|split; [|split]]].
    + intros b' Hin. apply in_app_or in Hin. destruct Hin as [Hin|[<-|[]]].
      * pose proof (Hcov b' Hin).
        destruct (Z.ltb_spec (fst b) (minX st)); destruct (Z.ltb_spec (maxX st) (fst b));
          destruct (Z.ltb_spec (snd b) (minY st)); destruct (Z.ltb_spec (maxY st) (snd b));
          lia.
      * destruct (Z.ltb_spec (fst b) (minX st)); destruct (Z.ltb_spec (maxX st) (fst b));
          destruct (Z.ltb_spec (snd b) (minY st)); destruct (Z.ltb_spec (maxY st) (snd b));
          lia.
    + destruct (Z.ltb_spec (fst b) (minX st)).
      * exists b. split; [apply in_or_app; right; left; reflexivity|reflexivity].
      * exists b1. split; [apply in_or_app; left; exact I1|exact E1].
    + destruct (Z.ltb_spec (maxX st) (fst b)).
      * exists b. split; [apply in_or_app; right; left; reflexivity|reflexivity].
      * exists b2. split; [apply in_or_app; left; exact I2|exact E2].
    + destruct (Z.ltb_spec (snd b) (minY st)).
      * exists b. split; [apply in_or_app; right; left; reflexivity|reflexivity].
      * exists b3. split; [apply in_or_app; left; exact I3|exact E3].
    + destruct (Z.ltb_spec (maxY st) (snd b)).
      * exists b. split; [apply in_or_app; right; left; reflexivity|reflexivity].
      * exists b4. split; [apply in_or_app; left; exact I4|exact E4].
Qed.

(** The scan keeps the box of the marked blocks. *)
Lemma scan_keeps_box (l : list (Z * Z)) :
  (forall b, In b l -> 0 <= fst b < blocksX /\ 0 <= snd b < blocksY) ->
  box_of blocksX blocksY (filter marked l)
         (fold_left (fun st b => if marked b
                                 then note_changed (fst b) (snd b) st else st)
                    l
                    {| changed := 0; minX := blocksX; minY := blocksY;
                       maxX := 0; maxY := 0 |}).
Proof.
  induction l as [|b l IH] using rev_ind; intros Hin.
  - left. repeat split.
  - rewrite fold_left_app, filter_app. cbn [fold_left filter].
    assert (box_of blocksX blocksY (filter marked l)
              (fold_left (fun st b0 => if marked b0
                                       then note_changed (fst b0) (snd b0) st else st)
                         l {| changed := 0; minX := blocksX; minY := blocksY;
                              maxX := 0; maxY := 0 |})) as Hbox.
    { apply IH. intros b' Hb'. apply Hin. apply in_or_app. left. exact Hb'. }
    destruct (marked b).
    + assert (In b (l ++ [b])) as Hlast
        by (apply in_or_app; right; left; reflexivity).
      destruct (Hin b Hlast) as [Hx Hy].
      apply box_of_note_changed; try assumption.
      intros b' Hb'. apply filter_In in Hb'. destruct Hb' as [Hb' _].
      apply Hin. apply in_or_app. left. exact Hb'.
    + rewrite app_nil_r. exact Hbox.
Qed.

End Box.

Lemma assemble_geometry env cfg w h total sc d :
  0 < changed sc ->
  let r := fst (fst (assemble env cfg w h total sc d)) in
  x r = u16 (minX sc * blockSize cfg) /\
  y r = u16 (minY sc * blockSize cfg) /\
  width r = u16 ((maxX sc - minX sc + 1) * blockSize cfg) /\
  height r = u16 ((maxY sc - minY sc + 1) * blockSize cfg).
Proof.
  intros Hpos. cbv zeta. unfold assemble.
  apply Z.ltb_lt in Hpos. rewrite Hpos. unfold apply_size_filter.
  destruct (F32.ltb _ _); [|destruct (F32.ltb _ _)];
    cbn [x y width height set_flags set_confidence measure fst];
    repeat split; reflexivity.
Qed.

Lemma blocks_fit (a blocks bs w : Z) :
  0 <= a <= blocks -> 0 < bs -> bs * (w / bs) <= w -> blocks <= w / bs ->
  0 <= a * bs <= w.
Proof.
  intros Ha Hbs Hw Hb. split.
  - apply Z.mul_nonneg_nonneg; lia.
  - assert (a * bs <= (w / bs) * bs) by (apply Z.mul_le_mono_nonneg_r; lia).
    lia.
Qed.

(** A comparison that counts at least one changed block returns the tight
    box of the changed blocks: in block coordinates it spans columns
    [x0 .. x1] and rows [y0 .. y1] of the grid, every changed block lies
    inside, each of its four sides touches a changed block, and in pixels
    it starts at a multiple of [blockSize] and ends inside the frame. *)
Theorem bounding_box_is_tight env f data e prev r e' log :
  Fb.buf f = Some data -> Fb.len f <> 0 ->
  Fb.format f = PIXFORMAT_GRAYSCALE ->
  cooldown_active env (this e) = false ->
  baseline (this e) (u16 (Fb.width f)) (u16 (Fb.height f)) = Some prev ->
  0 < blockSize (config (this e)) ->
  blockSize (config (this e)) * blockSize (config (this e)) < 65536 ->
  u16 (Fb.width f) * u16 (Fb.height f) <= Z.of_nat (length data) ->
  u16 (Fb.width f) * u16 (Fb.height f) <= Z.of_nat (length prev) ->
  detect env (Some f) e = Ok (r, e', log) ->
  0 < changedBlocks r ->
  let bs := blockSize (config (this e)) in
  let w := u16 (Fb.width f) in
  let h := u16 (Fb.height f) in
  let changed_block b :=
    In b (grid (w / bs) (h / bs)) /\
    truncated_mean_exceeds bs w data prev (threshold (config (this e))) b = true in
  exists x0 x1 y0 y1,
    0 <= x0 <= x1 /\ x1 < w / bs /\ 0 <= y0 <= y1 /\ y1 < h / bs /\
    x r = x0 * bs /\ y r = y0 * bs /\
    width r = (x1 - x0 + 1) * bs /\ height r = (y1 - y0 + 1) * bs /\
    x r + width r <= w /\ y r + height r <= h /\
    (forall b, changed_block b -> x0 <= fst b <= x1 /\ y0 <= snd b <= y1) /\
    (exists b, changed_block b /\ fst b = x0) /\
    (exists b, changed_block b /\ fst b = x1) /\
    (exists b, changed_block b /\ snd b = y0) /\
    (exists b, changed_block b /\ snd b = y1).
Proof.
  intros Hb Hl Hf Hc Hbase Hbs Hsq Hdata Hprev H Hpos bs w h changed_block.
  pose proof (u16_range (Fb.width f)) as Hw.
  pose proof (u16_range (Fb.height f)) as Hh.
  rewrite (detect_dispatch env f data e Hb Hl Hc), Hf in H.
  rewrite (detect_grayscale_ok env f data e prev Hbase Hbs Hsq Hdata Hprev) in H.
  fold w h bs in H, Hw, Hh, Hbs, Hsq.
  pose proof (blocks_bounds w bs ltac:(lia) Hbs) as HX.
  pose proof (blocks_bounds h bs ltac:(lia) Hbs) as HY.
  pose proof (Z.mul_div_le w bs Hbs) as HXw.
  pose proof (Z.mul_div_le h bs Hbs) as HYh.
  set (t := threshold (config (this e))) in *.
  set (sc := scan_grid bs w data prev t (w / bs) (h / bs)) in *.
  pose proof (assemble_counts env (config (this e)) w h
                (u32 (w / bs * (h / bs))) sc
                (set_prevFrame
                   (Some (firstn (Z.to_nat (w * h)) data
                          ++ skipn (Z.to_nat (w * h)) prev)) (this e))) as K.
  pose proof (fun P => assemble_geometry env (config (this e)) w h
                (u32 (w / bs * (h / bs))) sc
                (set_prevFrame
                   (Some (firstn (Z.to_nat (w * h)) data
                          ++ skipn (Z.to_nat (w * h)) prev)) (this e)) P) as G.
  destruct (assemble _ _ _ _ _ _ _) as [[r0 d0] log0].
  cbn [fst] in K, G. destruct K as [_ [Kc _]].
  inversion H; subst r0. clear H.
  rewrite Kc in Hpos. specialize (G Hpos). fold bs in G.
  destruct G as [Gx [Gy [Gw Gh]]].
  pose proof (scan_keeps_box (truncated_mean_exceeds bs w data prev t)
                (w / bs) (h / bs) (grid (w / bs) (h / bs))
                (fun b Hin => in_grid _ _ b Hin)) as Box.
  fold (scan_grid bs w data prev t (w / bs) (h / bs)) in Box. fold sc in Box.
  destruct Box as [[Hnil _]|[_ [Hcov [[b1 [I1 E1]] [[b2 [I2 E2]]
                                   [[b3 [I3 E3]] [b4 [I4 E4]]]]]]]].
  { exfalso. unfold sc, scan_grid in Hpos. rewrite changed_count in Hpos.
    - rewrite Hnil in Hpos. cbn in Hpos. lia.
    - cbn [changed]. lia.
    - cbn [changed]. rewrite grid_length by lia. nia. }
  assert (forall b, In b (filter (truncated_mean_exceeds bs w data prev t)
                            (grid (w / bs) (h / bs))) <-> changed_block b) as Hcb.
  { intros b. unfold changed_block. apply filter_In. }
  pose proof (proj1 (Hcb b1) I1) as [G1 _]. apply in_grid in G1.
  pose proof (proj1 (Hcb b2) I2) as [G2 _]. apply in_grid in G2.
  pose proof (proj1 (Hcb b3) I3) as [G3 _]. apply in_grid in G3.
  pose proof (proj1 (Hcb b4) I4) as [G4 _]. apply in_grid in G4.
  pose proof (Hcov b1 I1) as C1. pose proof (Hcov b3 I3) as C3.
  assert (0 <= minX sc <= maxX sc /\ maxX sc < w / bs) as [Rx Rx'] by lia.
  assert (0 <= minY sc <= maxY sc /\ maxY sc < h / bs) as [Ry Ry'] by lia.
  pose proof (blocks_fit (minX sc) (w / bs) bs w ltac:(lia) Hbs HXw ltac:(lia)) as Fx.
  pose proof (blocks_fit (minY sc) (h / bs) bs h ltac:(lia) Hbs HYh ltac:(lia)) as Fy.
  pose proof (blocks_fit (maxX sc - minX sc + 1) (w / bs) bs w
                ltac:(lia) Hbs HXw ltac:(lia)) as Fw.
  pose proof (blocks_fit (maxY sc - minY sc + 1) (h / bs) bs h
                ltac:(lia) Hbs HYh ltac:(lia)) as Fh.
  pose proof (blocks_fit (maxX sc + 1) (w / bs) bs w
                ltac:(lia) Hbs HXw ltac:(lia)) as Fxw.
  pose proof (blocks_fit (maxY sc + 1) (h / bs) bs h
                ltac:(lia) Hbs HYh ltac:(lia)) as Fyh.
  rewrite u16_small in Gx by lia. rewrite u16_small in Gy by lia.
  rewrite u16_small in Gw by lia. rewrite u16_small in Gh by lia.
  exists (minX sc), (maxX sc), (minY sc), (maxY sc).
  rewrite Gx, Gy, Gw, Gh.
  split; [exact Rx|]. split; [exact Rx'|].
  split; [exact Ry|]. split; [exact Ry'|].
  split; [reflexivity|]. split; [reflexivity|].
  split; [reflexivity|]. split; [reflexivity|].
  split; [lia|]. split; [lia|].
  split; [|split; [|split; [|split]]].
  - intros b Hb'. apply Hcov. apply Hcb. exact Hb'.
  - exists b1. split; [apply Hcb; exact I1|exact E1].
  - exists b2. split; [apply Hcb; exact I2|exact E2].
  - exists b3. split; [apply Hcb; exact I3|exact E3].
  - exists b4. split; [apply Hcb; exact I4|exact E4].
Qed.

Lemma bounding_box_is_tight_witness :
  exists r e' log,
    detect (at_time 5000) (Some small_frame) small_engine = Ok (r, e', log) /\
    x r = 1 * 2 /\ y r = 2 * 2 /\
    width r = (1 - 1 + 1) * 2 /\ height r = (2 - 2 + 1) * 2 /\
    x r + width r <= u16 8 /\ y r + height r <= u16 8.
Proof.
  destruct (detect (at_time 5000) (Some small_frame) small_engine)
    as [[[r e'] log]|] eqn:E; [|vm_compute in E; discriminate].
  assert (Fb.len small_frame <> 0) as Hlen by (vm_compute; discriminate).
  assert (u16 8 * u16 8 <= Z.of_nat (length (one_block_frame 8 8 2 1 2 x64))) as Hsz
    by (vm_compute; discriminate).
  assert (u16 8 * u16 8 <= Z.of_nat (length black8)) as Hsz'
    by (vm_compute; discriminate).
  assert (0 < changedBlocks r) as Hpos
    by (vm_compute in E; inversion E; reflexivity).
  destruct (bounding_box_is_tight (at_time 5000) small_frame
              (one_block_frame 8 8 2 1 2 x64) small_engine black8 r e' log
              eq_refl Hlen eq_refl eq_refl eq_refl eq_refl eq_refl Hsz Hsz' E Hpos)
    as [x0 [x1 [y0 [y1 [_ [_ [_ [_ [Hx [Hy [Hw [Hh [Hxw [Hyh _]]]]]]]]]]]]]].
  exists r, e', log. split; [reflexivity|].
  assert (x r = 2 /\ y r = 4 /\ width r = 2 /\ height r = 2) as [Vx [Vy [Vw Vh]]]
    by (vm_compute in E; inversion E; repeat split).
  rewrite Vx, Vy, Vw, Vh in *.
  repeat split; first [reflexivity | assumption].
Defined.

(** ** The history of the heuristic *)

Lemma array_set_length (a : list Z) (i : nat) (v : Z) :
  length (array_set a i v) = length a.
Proof.
  revert i. induction a as [|h t IH]; intros i; [reflexivity|].
  destruct i; cbn [array_set length]; [reflexivity|]. rewrite IH. reflexivity.
Qed.

(** With the cursor inside the array the heuristic returns, records the
    length of the frame as the previous one and stores it at the cursor,
    which moves on by one, around the array. *)
Lemma detectFromJpegSize_statics env f e :
  0 <= historyIdx (statics e) < 5 ->
  exists r e' log,
    detectFromJpegSize env f e = Ok (r, e', log) /\
    statics e' =
      {| prevJpegSize := Fb.len f;
         jpegSizeHistory :=
           array_set (jpegSizeHistory (statics e))
                     (Z.to_nat (historyIdx (statics e))) (Fb.len f);
         historyIdx := Z.rem (historyIdx (statics e) + 1) 5 |}.
Proof.
  intros Hidx. unfold detectFromJpegSize.
  replace ((historyIdx (statics e) <? 0) || (5 <=? historyIdx (statics e)))
    with false
    by (symmetry; apply orb_false_iff; split;
        [apply Z.ltb_ge|apply Z.leb_gt]; lia).
  destruct (sum_valid _) as [sum validCount].
  destruct (_ || _); [do 3 eexists; split; reflexivity|].
  destruct (F64.ltb F64.ten _); [|do 3 eexists; split; reflexivity].
  destruct (F64.ltb _ F64.three); [do 3 eexists; split; reflexivity|].
  destruct (F64.ltb F64.fifty _); do 3 eexists; split; reflexivity.
Qed.

(** The history is a sliding window over the encoded frames: a call of the
    heuristic drops the oldest of the five lengths and appends the length
    of its frame; it never holds more than five, the cursor stays inside
    the array, and the call cannot fault. *)
Theorem history_is_a_sliding_window env f e :
  statics_wf (statics e) ->
  exists r e' log,
    detectFromJpegSize env f e = Ok (r, e', log) /\
    statics_wf (statics e') /\
    prevJpegSize (statics e') = Fb.len f /\
    window_of (statics e') = tl (window_of (statics e)) ++ [Fb.len f].
Proof.
  intros [Hlen Hidx].
  destruct (detectFromJpegSize_statics env f e Hidx) as [r [e' [log [E S]]]].
  exists r, e', log. split; [exact E|]. rewrite S. clear E S.
  destruct (statics e) as [p hist idx]. cbn [jpegSizeHistory historyIdx] in *.
  destruct hist as [|a [|b [|c [|d [|g [|? ?]]]]]]; try discriminate.
  assert (idx = 0 \/ idx = 1 \/ idx = 2 \/ idx = 3 \/ idx = 4) as C by lia.
  destruct C as [->|[->|[->|[->| ->]]]];
    (split; [split; [reflexivity|cbn; lia]|]); split; reflexivity.
Qed.

Lemma history_is_a_sliding_window_witness :
  exists r e' log,
    detectFromJpegSize (at_time 9000) (jpeg_frame 640 480 1234) busy_engine
    = Ok (r, e', log) /\
    statics_wf (statics e') /\
    prevJpegSize (statics e') = 1234 /\
    window_of (statics e') = [1000; 1020; 1030; 1040; 1234].
Proof.
  destruct (history_is_a_sliding_window (at_time 9000) (jpeg_frame 640 480 1234)
              busy_engine) as [r [e' [log [E [W [P Hwin]]]]]].
  - split; [reflexivity|]. cbn. lia.
  - exists r, e', log. repeat split; try assumption; apply W.
Defined.

(** ** Warm-up of the heuristic *)

(** In a program that has seen no encoded frame yet, the first two valid
    encoded frames are never reported, whatever their lengths: both calls
    return the all-false result. *)
Theorem first_two_encoded_frames_are_silent env1 env2 f1 f2 data1 data2 e :
  statics e = initial_statics ->
  Fb.buf f1 = Some data1 -> Fb.len f1 <> 0 -> Fb.format f1 = PIXFORMAT_JPEG ->
  Fb.buf f2 = Some data2 -> Fb.len f2 <> 0 -> Fb.format f2 = PIXFORMAT_JPEG ->
  cooldown_active env1 (this e) = false ->
  cooldown_active env2 (this e) = false ->
  exists e1 e2,
    detect env1 (Some f1) e = Ok (no_detection, e1, []) /\
    detect env2 (Some f2) e1 = Ok (no_detection, e2, []).
Proof.
  intros Hs Hb1 Hl1 Hf1 Hb2 Hl2 Hf2 Hc1 Hc2.
  destruct e as [d st]. cbn [statics] in Hs. subst st.
  set (e1 := {| this := d;
                statics := {| prevJpegSize := Fb.len f1;
                              jpegSizeHistory := [Fb.len f1; 0; 0; 0; 0];
                              historyIdx := 1 |} |}).
  assert (detect env1 (Some f1) {| this := d; statics := initial_statics |}
          = Ok (no_detection, e1, [])) as First.
  { rewrite (detect_dispatch env1 f1 data1 _ Hb1 Hl1 Hc1), Hf1.
    unfold detectFromJpegSize.
    cbn [statics initial_statics historyIdx jpegSizeHistory prevJpegSize
         Z.ltb Z.leb Z.compare orb Z.to_nat array_set].
    destruct (sum_valid [Fb.len f1; 0; 0; 0; 0]) as [sum validCount].
    reflexivity. }
  exists e1. eexists. split; [exact First|].
  rewrite (detect_dispatch env2 f2 data2 e1 Hb2 Hl2 Hc2), Hf2.
  unfold detectFromJpegSize.
  cbn [statics e1 historyIdx jpegSizeHistory prevJpegSize
       Z.ltb Z.leb Z.compare orb].
  change (array_set [Fb.len f1; 0; 0; 0; 0] (Z.to_nat 1) (Fb.len f2))
    with [Fb.len f1; Fb.len f2; 0; 0; 0].
  unfold sum_valid. cbn [fold_left].
  destruct (0 <? Fb.len f1); destruct (0 <? Fb.len f2);
    cbn [Z.ltb Z.compare Z.add Pos.compare Pos.compare_cont Pos.add];
    rewrite orb_true_r; reflexivity.
Qed.

Lemma first_two_encoded_frames_are_silent_witness :
  exists e1 e2,
    detect (at_time 5000) (Some (jpeg_frame 640 480 1000)) initial_engine
    = Ok (no_detection, e1, []) /\
    detect (at_time 5100) (Some (jpeg_frame 640 480 90000)) e1
    = Ok (no_detection, e2, []).
Proof.
  apply (first_two_encoded_frames_are_silent (at_time 5000) (at_time 5100)
           (jpeg_frame 640 480 1000) (jpeg_frame 640 480 90000)
           (repeat x00 (Z.to_nat 1000)) (repeat x00 (Z.to_nat 90000)));
    try reflexivity; discriminate.
Defined.

(** ** A stream of encoded frames of one length *)

(** A float against itself deviates by 0 percent, or by no number at all:
    never by more than 10. *)
Lemma self_deviation_below_ten (v : spec_float) :
  F64.ltb F64.ten (F64.of_float (percent_of (F32.abs (F32.sub v v)) v)) = false.
Proof.
  destruct v as [s|s| |s m e].
  - destruct s; reflexivity.
  - destruct s; reflexivity.
  - reflexivity.
  - unfold F32.sub, SFsub. rewrite Z.sub_diag. destruct s; reflexivity.
Qed.

Lemma sum_valid_of_one_length (n : Z) (l : list Z) :
  0 < n ->
  Forall (fun h => h = 0 \/ h = n) l ->
  forall a c,
    a = c * n -> 0 <= c -> (c + Z.of_nat (length l)) * n < 2 ^ 32 ->
    exists c',
      fold_left (fun '(avgSize, validCount) h =>
                   if 0 <? h then (u32 (avgSize + h), validCount + 1)
                   else (avgSize, validCount)) l (a, c)
      = (c' * n, c') /\
      c <= c' <= c + Z.of_nat (length l) /\ (In n l -> c < c').
Proof.
  intros Hn HF. induction HF as [|h l Hh HF IH]; intros a c Ha Hc Hroom.
  - exists c. subst a. cbn. repeat split; try lia; try (intros []); try tauto.
  - cbn [fold_left length] in *. destruct Hh as [->| ->].
    + cbn [Z.ltb Z.compare].
      destruct (IH a c Ha Hc ltac:(nia)) as [c' [E [R I]]].
      exists c'. split; [exact E|]. split; [lia|].
      intros [H0|Hin]; [lia|exact (I Hin)].
    + replace (0 <? n) with true by (symmetry; apply Z.ltb_lt; lia).
      subst a. rewrite u32_small by nia.
      destruct (IH (c * n + n) (c + 1) ltac:(lia) ltac:(lia) ltac:(nia))
        as [c' [E [R I]]].
      exists c'. split; [exact E|]. split; lia.
Qed.

Lemma array_set_Forall (P : Z -> Prop) (a : list Z) (i : nat) (v : Z) :
  Forall P a -> P v -> Forall P (array_set a i v).
Proof.
  intros HF Hv. revert i. induction HF as [|h t Hh HF IH]; intros i.
  - constructor.
  - destruct i; cbn [array_set]; constructor; auto.
Qed.

Lemma array_set_In (a : list Z) (i : nat) (v : Z) :
  (i < length a)%nat -> In v (array_set a i v).
Proof.
  revert i. induction a as [|h t IH]; intros i Hi; [cbn in Hi; lia|].
  destruct i; cbn [array_set]; [left; reflexivity|].
  right. apply IH. cbn in Hi. lia.
Qed.

(** While every length in the history is that of the frame submitted (or
    the 0 of an unused entry), the heuristic reports nothing: the average
    is the length itself and the deviation is 0. *)
Theorem equal_lengths_are_silent env f data e :
  Fb.buf f = Some data -> Fb.len f <> 0 -> Fb.format f = PIXFORMAT_JPEG ->
  cooldown_active env (this e) = false ->
  statics_wf (statics e) ->
  0 < Fb.len f -> 5 * Fb.len f < 2 ^ 32 ->
  Forall (fun h => h = 0 \/ h = Fb.len f) (jpegSizeHistory (statics e)) ->
  exists e',
    detect env (Some f) e = Ok (no_detection, e', []) /\
    Forall (fun h => h = 0 \/ h = Fb.len f) (jpegSizeHistory (statics e')).
Proof.
  intros Hb Hl Hf Hc [Hlen Hidx] Hpos Hroom HF.
  rewrite (detect_dispatch env f data e Hb Hl Hc), Hf.
  unfold detectFromJpegSize.
  replace ((historyIdx (statics e) <? 0) || (5 <=? historyIdx (statics e)))
    with false
    by (symmetry; apply orb_false_iff; split;
        [apply Z.ltb_ge|apply Z.leb_gt]; lia).
  set (hist := array_set (jpegSizeHistory (statics e))
                 (Z.to_nat (historyIdx (statics e))) (Fb.len f)).
  assert (Forall (fun h => h = 0 \/ h = Fb.len f) hist) as HF'
    by (apply array_set_Forall; [exact HF|right; reflexivity]).
  assert (In (Fb.len f) hist) as Hin by (apply array_set_In; lia).
  assert (length hist = 5%nat) as Hlen'
    by (unfold hist; rewrite array_set_length; exact Hlen).
  destruct (sum_valid_of_one_length (Fb.len f) hist Hpos HF' 0 0
              ltac:(lia) ltac:(lia) ltac:(rewrite Hlen'; lia))
    as [c [E [R I]]].
  specialize (I Hin).
  unfold sum_valid. rewrite E. cbv beta iota.
  replace (0 <? c) with true by (symmetry; apply Z.ltb_lt; lia).
  replace (c * Fb.len f / c) with (Fb.len f)
    by (rewrite Z.mul_comm, Z.div_mul; lia).
  unfold jpeg_deviation. rewrite self_deviation_below_ten.
  destruct (_ || _); eexists; (split; [reflexivity|exact HF']).
Qed.

Lemma equal_lengths_are_silent_witness :
  exists e',
    detect (at_time 9000) (Some (jpeg_frame 640 480 1000)) even_engine
    = Ok (no_detection, e', []) /\
    Forall (fun h => h = 0 \/ h = 1000) (jpegSizeHistory (statics e')).
Proof.
  assert (Fb.len (jpeg_frame 640 480 1000) <> 0) as Hlen by discriminate.
  assert (statics_wf (statics even_engine)) as Hwf
    by (split; [reflexivity|cbn; lia]).
  assert (Forall (fun h => h = 0 \/ h = Fb.len (jpeg_frame 640 480 1000))
            (jpegSizeHistory (statics even_engine))) as HF
    by (repeat constructor; auto).
  exact (equal_lengths_are_silent (at_time 9000) (jpeg_frame 640 480 1000)
           (repeat x00 (Z.to_nat 1000)) even_engine
           eq_refl Hlen eq_refl eq_refl Hwf eq_refl eq_refl HF).
Defined.

(** ** The verdicts of the heuristic *)

(** What the heuristic can return: a reported detection is a deviation
    above 10 and not above 50 percent, stamps the cooldown with the clock
    and is not size-filtered; a size-filtered result is a deviation above
    50 percent; both carry the deviation as [sizePercent] and the centred
    box of half the frame's width and height; every other result is the
    all-false one. The block counts are always 0. *)
Theorem heuristic_verdicts env f e r e' log :
  detectFromJpegSize env f e = Ok (r, e', log) ->
  changedBlocks r = 0 /\ totalBlocks r = 0 /\
  (detected r = true ->
   F64.ltb F64.ten (F64.of_float (sizePercent r)) = true /\
   F64.ltb F64.fifty (F64.of_float (sizePercent r)) = false /\
   sizeFiltered r = false /\
   lastDetectionTime (this e') = millis_accept env) /\
  (sizeFiltered r = true ->
   F64.ltb F64.fifty (F64.of_float (sizePercent r)) = true /\
   detected r = false /\
   lastDetectionTime (this e') = lastDetectionTime (this e)) /\
  (detected r = true \/ sizeFiltered r = true ->
   x r = u16 (Fb.width f / 4) /\ y r = u16 (Fb.height f / 4) /\
   width r = u16 (Fb.width f / 2) /\ height r = u16 (Fb.height f / 2) /\
   confidence r = F32.min F32.one (F32.div (sizePercent r) F32.thirty)) /\
  (detected r = false -> sizeFiltered r = false -> r = no_detection).
Proof.
  unfold detectFromJpegSize. intros H.
  destruct (_ || _); [discriminate|].
  destruct (sum_valid _) as [sum validCount].
  destruct (_ || _).
  { inversion H; subst. cbn [detected sizeFiltered changedBlocks totalBlocks no_detection].
    repeat split; intros; try reflexivity; intuition congruence. }
  destruct (F64.ltb F64.ten _) eqn:T.
  2:{ inversion H; subst. cbn [detected sizeFiltered changedBlocks totalBlocks no_detection].
      repeat split; intros; try reflexivity; intuition congruence. }
  rewrite (above_ten_not_below_three _ T) in H.
  destruct (F64.ltb F64.fifty _) eqn:L; cbn in H; inversion H; subst; clear H;
    cbn [detected sizeFiltered x y width height sizePercent changedBlocks
         totalBlocks confidence set_flags this set_statics
         set_lastDetectionTime lastDetectionTime];
    repeat split; intros; try reflexivity; try assumption; intuition congruence.
Qed.

Lemma heuristic_verdicts_witness :
  exists r e' log,
    detectFromJpegSize (at_time 9000) (jpeg_frame 640 480 1300) even_engine
    = Ok (r, e', log) /\
    detected r = true /\
    x r = u16 (640 / 4) /\ y r = u16 (480 / 4) /\
    lastDetectionTime (this e') = 9000.
Proof.
  destruct (detectFromJpegSize (at_time 9000) (jpeg_frame 640 480 1300) even_engine)
    as [[[r e'] log]|] eqn:E; [|vm_compute in E; discriminate].
  destruct (heuristic_verdicts _ _ _ _ _ _ E) as [_ [_ [Hd [_ [Hbox _]]]]].
  assert (detected r = true) as D by (vm_compute in E; inversion E; reflexivity).
  destruct (Hd D) as [_ [_ [_ Ht]]].
  destruct (Hbox (or_introl D)) as [Hx [Hy _]].
  exists r, e', log. repeat split; assumption.
Defined.

(** ** Calls that cannot fault *)

Lemma detect_keeps_statics_wf env frame e r e' log :
  statics_wf (statics e) ->
  detect env frame e = Ok (r, e', log) ->
  statics_wf (statics e').
Proof.
  intros Hwf H. unfold detect in H.
  destruct frame as [f|]; [|returned H].
  destruct (Fb.buf f) as [data|]; [|returned H].
  destruct (Fb.len f =? 0); [returned H|].
  destruct (cooldown_active env (this e)); [returned H|].
  destruct (Fb.format f); try returned H.
  - unfold detect_grayscale in H.
    destruct (baseline (this e) _ _) as [prev|].
    + destruct (blockSize (config (this e)) =? 0); [discriminate|].
      destruct (compare_blocks _ _ _ _ _ _) as [sc|]; [|discriminate].
      cbn [bind] in H.
      destruct (memcpy prev data _) as [prev'|]; [|discriminate].
      cbn [bind] in H.
      destruct (assemble _ _ _ _ _ _ _) as [[r0 d0] log0].
      returned H.
    + destruct (allocatePrevFrame _ _ _ _) as [d1 log1].
      destruct (prevFrame d1) as [p|];
        try (destruct (memcpy p data _); [|discriminate]; cbn [bind] in H);
        returned H.
  - destruct Hwf as [Hlen Hidx].
    destruct (detectFromJpegSize_statics env f e Hidx) as [r1 [e1 [log1 [E S]]]].
    rewrite E in H. inversion H; subst. rewrite S.
    split.
    + cbn [jpegSizeHistory]. rewrite array_set_length. exact Hlen.
    + cbn [historyIdx]. apply Z.rem_bound_pos; lia.
Qed.

Lemma baseline_some (d : MotionDetector) (w h : Z) (prev : list byte) :
  baseline d w h = Some prev ->
  prevFrame d = Some prev /\ prevWidth d = w /\ prevHeight d = h.
Proof.
  unfold baseline. destruct (prevFrame d) as [p|]; [|discriminate].
  destruct ((prevWidth d =? w) && (prevHeight d =? h)) eqn:E; [|discriminate].
  apply andb_true_iff in E. destruct E as [Ew Eh].
  apply Z.eqb_eq in Ew. apply Z.eqb_eq in Eh.
  intros H. inversion H; subst. repeat split.
Qed.

(** One call of a well-formed detector on a well-formed frame returns and
    leaves a well-formed detector with the same configuration. *)
Lemma well_formed_call_returns env frame e :
  engine_wf e -> frame_holds_pixels frame ->
  exists r e' log,
    detect env frame e = Ok (r, e', log) /\
    engine_wf e' /\ config (this e') = config (this e).
Proof.
  intros [Hbs [Hsq [Hfit Hst]]] Hframe.
  assert (exists r e' log, detect env frame e = Ok (r, e', log))
    as [r [e' [log H]]].
  { destruct frame as [f|]; [|do 3 eexists; reflexivity].
    destruct (Fb.buf f) as [data|] eqn:Hb;
      [|do 3 eexists; unfold detect; rewrite Hb; reflexivity].
    destruct (Z.eq_dec (Fb.len f) 0) as [Hl|Hl].
    { do 3 eexists. unfold detect. rewrite Hb, Hl. reflexivity. }
    destruct (cooldown_active env (this e)) eqn:Hc.
    { do 3 eexists. unfold detect. rewrite Hb.
      apply Z.eqb_neq in Hl. rewrite Hl, Hc. reflexivity. }
    rewrite (detect_dispatch env f data e Hb Hl Hc).
    cbn [frame_holds_pixels] in Hframe. rewrite Hb in Hframe.
    destruct (Fb.format f) eqn:Hf; try (do 3 eexists; reflexivity).
    - (* grayscale *)
      destruct (baseline (this e) (u16 (Fb.width f)) (u16 (Fb.height f)))
        as [prev|] eqn:B.
      + destruct (baseline_some _ _ _ _ B) as [Bp [Bw Bh]].
        unfold baseline_fits in Hfit. rewrite Bp, Bw, Bh in Hfit.
        rewrite (detect_grayscale_ok env f data e prev B Hbs Hsq Hframe Hfit).
        destruct (assemble _ _ _ _ _ _ _) as [[r0 d0] log0].
        do 3 eexists. reflexivity.
      + pose proof (frame_size_u32 (Fb.width f) (Fb.height f)) as R.
        unfold detect_grayscale. rewrite B.
        unfold allocatePrevFrame. rewrite (u32_small _ R).
        destruct (malloc_spiram env); [|destruct (malloc_internal env)];
          cbn [prevFrame]; try rewrite memcpy_fresh by lia;
          do 3 eexists; reflexivity.
    - (* JPEG *)
      destruct Hst as [_ Hidx].
      destruct (detectFromJpegSize_statics env f e Hidx) as [r [e' [log [E _]]]].
      exists r, e', log. exact E. }
  exists r, e', log. split; [exact H|].
  pose proof (detect_keeps_config _ _ _ _ _ _ H) as K.
  split; [|exact K].
  unfold engine_wf. rewrite K.
  split; [exact Hbs|]. split; [exact Hsq|]. split.
  - exact (detect_keeps_baseline_fits _ _ _ _ _ _ Hfit H).
  - exact (detect_keeps_statics_wf _ _ _ _ _ _ Hst H).
Qed.

Lemma initial_engine_wf : engine_wf initial_engine.
Proof.
  split; [reflexivity|]. split; [reflexivity|]. split; [exact I|].
  split; [reflexivity|]. cbn. lia.
Qed.

(** A detector whose block side is positive with a square below 65536,
    whose buffer holds the stored dimensions and whose history cursor is
    inside the array - a new detector is one - is given a stream of frames
    of any kind (null, empty, of any format) whose buffers, for the
    grayscale ones, hold [width * height] bytes, each call with its own
    clock readings and allocator answers. The stream is processed to the
    end: one result per call, no division by zero, no access outside a
    buffer, and the detector ends well-formed with its configuration
    unchanged. *)
Theorem well_formed_stream_returns calls :
  forall e,
    engine_wf e ->
    Forall (fun c => frame_holds_pixels (snd c)) calls ->
    exists rs e',
      detect_all calls e = Ok (rs, e') /\
      length rs = length calls /\
      engine_wf e' /\ config (this e') = config (this e).
Proof.
  induction calls as [|[env frame] calls IH]; intros e Hwf HF.
  - exists [], e.
    split; [reflexivity|]. split; [reflexivity|]. split; [exact Hwf|reflexivity].
  - inversion HF as [|c cs Hc Hcs]; subst. cbn [snd] in Hc.
    destruct (well_formed_call_returns env frame e Hwf Hc)
      as [r [e1 [log [E [Hwf1 K1]]]]].
    destruct (IH e1 Hwf1 Hcs) as [rs [e2 [E2 [L2 [Hwf2 K2]]]]].
    exists (r :: rs), e2. cbn [detect_all]. rewrite E. cbn [bind].
    rewrite E2. cbn [bind length].
    split; [reflexivity|]. split; [f_equal; exact L2|].
    split; [exact Hwf2|]. rewrite K2. exact K1.
Qed.

Lemma well_formed_stream_returns_witness :
  exists rs e',
    detect_all mixed_stream initial_engine = Ok (rs, e') /\
    length rs = 6%nat /\
    engine_wf e' /\ config (this e') = default_config.
Proof.
  apply (well_formed_stream_returns mixed_stream initial_engine).
  - exact initial_engine_wf.
  - unfold mixed_stream.
    repeat (constructor; [cbn; try exact I; vm_compute; discriminate|]).
    constructor.
Defined.

(** ** The confidence *)

Lemma binary_round_aux_sign (p em : Z) (s : bool) (m e : Z) (l : location) :
  sign_is s (binary_round_aux p em s m e l).
Proof.
  unfold binary_round_aux.
  destruct (shr_fexp p em m e l) as [mrs' e'].
  destruct (shr_fexp p em _ e' loc_Exact) as [mrs'' e''].
  destruct (shr_m mrs''); [reflexivity| |exact I].
  destruct (e'' <=? em - p); reflexivity.
Qed.

Lemma binary_round_sign (p em : Z) (s : bool) (m : positive) (e : Z) :
  sign_is s (binary_round p em s m e).
Proof.
  unfold binary_round. destruct (shl_align _ _ _) as [mz ez].
  apply binary_round_aux_sign.
Qed.

Lemma of_Z_sign (n : Z) : 0 <= n -> sign_is false (F32.of_Z n).
Proof.
  intros Hn. unfold F32.of_Z, binary_normalize.
  destruct n as [|q|q]; [reflexivity|apply binary_round_sign|lia].
Qed.

Lemma convert_sign (p em : Z) (s : bool) (v : spec_float) :
  sign_is s v ->
  sign_is s match v with
            | S754_finite s' m e => binary_normalize p em (cond_Zopp s' (Zpos m)) e s'
            | _ => v
            end.
Proof.
  destruct v as [s'|s'| |s' m e]; try (intros H; exact H).
  cbn [sign_is]. intros ->. destruct s; cbn [cond_Zopp Z.opp binary_normalize];
    apply binary_round_sign.
Qed.

Lemma div_sign (a b : spec_float) :
  sign_is false a -> sign_is false b -> sign_is false (F32.div a b).
Proof.
  unfold F32.div, SFdiv.
  destruct a as [sa|sa| |sa ma ea]; destruct b as [sb|sb| |sb mb eb];
    cbn [sign_is]; intros Ha Hb; subst; try reflexivity; try exact I.
  destruct (SFdiv_core_binary _ _ _ _ _ _) as [[mz ez] lz].
  apply binary_round_aux_sign.
Qed.

Lemma mul_sign (p em : Z) (a b : spec_float) :
  sign_is false a -> sign_is false b -> sign_is false (SFmul p em a b).
Proof.
  unfold SFmul.
  destruct a as [sa|sa| |sa ma ea]; destruct b as [sb|sb| |sb mb eb];
    cbn [sign_is]; intros Ha Hb; subst; try reflexivity; try exact I.
  apply binary_round_aux_sign.
Qed.

Lemma abs_sign (v : spec_float) : sign_is false (F32.abs v).
Proof. destruct v; cbn; auto. Qed.

Lemma percent_of_sign (a b : spec_float) :
  sign_is false a -> sign_is false b -> sign_is false (percent_of a b).
Proof.
  intros Ha Hb. unfold percent_of, F32.of_double, F64.of_float, F64.mul.
  apply convert_sign. apply mul_sign; [|reflexivity].
  apply convert_sign. apply div_sign; assumption.
Qed.

(** [min(1.0f, v)] of a float that is not negative lies in [0, 1]; a NaN
    gives 1. *)
Lemma min_one_in_unit_interval (v : spec_float) :
  sign_is false v -> in_unit_interval (F32.min F32.one v).
Proof.
  intros Hs. unfold F32.min.
  destruct (F32.ltb v F32.one) eqn:L.
  - unfold in_unit_interval.
    change F32.one with (S754_finite false 8388608 (-23)) in *.
    unfold F32.ltb, F32.zero, SFltb, SFcompare in *.
    destruct v as [s|s| |s m e]; cbn [sign_is] in Hs; subst;
      try discriminate.
    + repeat split; discriminate.
    + split; [discriminate|]. split; [reflexivity|].
      destruct (Z.compare_spec e (-23)) as [E|E|E]; try discriminate.
      * subst e. rewrite Z.compare_refl.
        pose proof (Pos.compare_cont_antisym m 8388608 Eq) as A.
        cbn [CompOpp] in A. rewrite <- A.
        destruct (Pos.compare_cont Eq m 8388608); try discriminate. reflexivity.
      * destruct (Z.compare_spec (-23) e) as [E'|E'|E']; try lia; reflexivity.
  - repeat split; try reflexivity; discriminate.
Qed.

Lemma sum_valid_nonneg (l : list Z) :
  0 <= fst (sum_valid l) /\ 0 <= snd (sum_valid l).
Proof.
  unfold sum_valid.
  assert (forall a c, 0 <= a -> 0 <= c ->
            0 <= fst (fold_left (fun '(avgSize, validCount) h =>
                                   if 0 <? h then (u32 (avgSize + h), validCount + 1)
                                   else (avgSize, validCount)) l (a, c))
            /\ 0 <= snd (fold_left (fun '(avgSize, validCount) h =>
                                      if 0 <? h then (u32 (avgSize + h), validCount + 1)
                                      else (avgSize, validCount)) l (a, c))) as G.
  { induction l as [|h l IH]; intros a c Ha Hc; [cbn; lia|].
    cbn [fold_left]. destruct (0 <? h).
    - apply IH; [apply u32_range|lia].
    - apply IH; assumption. }
  apply G; lia.
Qed.

Lemma assemble_confidence env cfg w h total sc d :
  0 <= total ->
  in_unit_interval (confidence (fst (fst (assemble env cfg w h total sc d)))).
Proof.
  intros Ht. unfold assemble. destruct (0 <? changed sc) eqn:C.
  - apply Z.ltb_lt in C.
    assert (in_unit_interval (block_confidence (changed sc) total)) as U.
    { unfold block_confidence. apply min_one_in_unit_interval.
      apply mul_sign; [|reflexivity].
      apply div_sign; apply of_Z_sign; lia. }
    unfold apply_size_filter.
    destruct (F32.ltb _ _); [|destruct (F32.ltb _ _)];
      cbn [detected confidence changedBlocks totalBlocks set_flags
           set_confidence measure fst]; exact U.
  - cbn. repeat split; try reflexivity. discriminate.
Qed.

(** The confidence of every result is a number from 0 to 1: never NaN,
    never negative, never above 1 - on the block path, on the heuristic
    path and on every early return. *)
Theorem confidence_is_in_unit_interval env frame e r e' log :
  detect env frame e = Ok (r, e', log) ->
  in_unit_interval (confidence r).
Proof.
  assert (in_unit_interval (confidence no_detection)) as U0
    by (repeat split; try reflexivity; discriminate).
  intros H. unfold detect in H.
  destruct frame as [f|]; [|inversion H; subst; exact U0].
  destruct (Fb.buf f) as [data|]; [|inversion H; subst; exact U0].
  destruct (Fb.len f =? 0); [inversion H; subst; exact U0|].
  destruct (cooldown_active env (this e)); [inversion H; subst; exact U0|].
  destruct (Fb.format f); try (inversion H; subst; exact U0).
  - unfold detect_grayscale in H.
    destruct (baseline (this e) _ _) as [prev|].
    + destruct (blockSize (config (this e)) =? 0); [discriminate|].
      destruct (compare_blocks _ _ _ _ _ _) as [sc|]; [|discriminate].
      cbn [bind] in H.
      destruct (memcpy prev data _) as [prev'|]; [|discriminate].
      cbn [bind] in H.
      pose proof (assemble_confidence env (config (this e))
                    (u16 (Fb.width f)) (u16 (Fb.height f))
                    (u32 (u16 (u16 (Fb.width f) / blockSize (config (this e)))
                          * u16 (u16 (Fb.height f) / blockSize (config (this e)))))
                    sc (set_prevFrame (Some prev') (this e))
                    (proj1 (u32_range _))) as K.
      destruct (assemble _ _ _ _ _ _ _) as [[r0 d0] log0].
      cbn [fst] in K. inversion H; subst. exact K.
    + destruct (allocatePrevFrame _ _ _ _) as [d1 log1].
      destruct (prevFrame d1) as [p|];
        try (destruct (memcpy p data _); [|discriminate]; cbn [bind] in H);
        inversion H; subst; exact U0.
  - unfold detectFromJpegSize in H.
    destruct (_ || _); [discriminate|].
    pose proof (sum_valid_nonneg
                  (array_set (jpegSizeHistory (statics e))
                     (Z.to_nat (historyIdx (statics e))) (Fb.len f))) as [Hs Hc].
    destruct (sum_valid _) as [sum validCount]. cbn [fst snd] in Hs, Hc.
    destruct (_ || _); [inversion H; subst; exact U0|].
    destruct (F64.ltb F64.ten _); [|inversion H; subst; exact U0].
    set (avgSize := if 0 <? validCount then sum / validCount else sum) in *.
    assert (0 <= avgSize) as Ha.
    { unfold avgSize. destruct (Z.ltb_spec 0 validCount); [|exact Hs].
      apply Z.div_pos; lia. }
    assert (in_unit_interval
              (F32.min F32.one (F32.div (jpeg_deviation (Fb.len f) avgSize) F32.thirty)))
      as U.
    { apply min_one_in_unit_interval. apply div_sign; [|reflexivity].
      unfold jpeg_deviation. apply percent_of_sign; [apply abs_sign|].
      apply of_Z_sign. exact Ha. }
    destruct (F64.ltb _ F64.three); [cbn in H; inversion H; subst; exact U|].
    destruct (F64.ltb F64.fifty _); cbn in H; inversion H; subst; exact U.
Qed.

Lemma confidence_is_in_unit_interval_witness :
  exists r e' log,
    detect (at_time 5000) (Some small_frame) small_engine = Ok (r, e', log) /\
    float_value (confidence r) = Some (5 # 16)%Q /\
    in_unit_interval (confidence r).
Proof.
  destruct (detect (at_time 5000) (Some small_frame) small_engine)
    as [[[r e'] log]|] eqn:E; [|vm_compute in E; discriminate].
  exists r, e', log. split; [reflexivity|]. split.
  - vm_compute in E. inversion E. vm_compute. reflexivity.
  - exact (confidence_is_in_unit_interval _ _ _ _ _ _ E).
Defined.

(** ** The baseline after a comparison *)

(** Whatever a comparison returns - nothing, a detection or a
    size-filtered rejection - the stored frame afterwards shows the frame
    just compared on all [width * height] pixels, in a buffer of the same
    size and for the same dimensions: the next frame is compared with this
    one. The statics of the heuristic are not touched. *)
Theorem baseline_follows_the_frame env f data e prev r e' log :
  Fb.buf f = Some data -> Fb.len f <> 0 ->
  Fb.format f = PIXFORMAT_GRAYSCALE ->
  cooldown_active env (this e) = false ->
  baseline (this e) (u16 (Fb.width f)) (u16 (Fb.height f)) = Some prev ->
  detect env (Some f) e = Ok (r, e', log) ->
  exists stored,
    baseline (this e') (u16 (Fb.width f)) (u16 (Fb.height f)) = Some stored /\
    length stored = length prev /\
    firstn (Z.to_nat (u16 (Fb.width f) * u16 (Fb.height f))) stored
    = firstn (Z.to_nat (u16 (Fb.width f) * u16 (Fb.height f))) data /\
    u16 (Fb.width f) * u16 (Fb.height f) <= Z.of_nat (length data) /\
    statics e' = statics e.
Proof.
  intros Hb Hl Hf Hc Hbase H.
  pose proof (frame_size_u32 (Fb.width f) (Fb.height f)) as R.
  destruct (baseline_some _ _ _ _ Hbase) as [Bp [Bw Bh]].
  rewrite (detect_dispatch env f data e Hb Hl Hc), Hf in H.
  unfold detect_grayscale in H. rewrite Hbase in H.
  destruct (blockSize (config (this e)) =? 0); [discriminate|].
  destruct (compare_blocks _ _ _ _ _ _) as [sc|]; [|discriminate].
  cbn [bind] in H. rewrite (u32_small _ R) in H.
  set (n := u16 (Fb.width f) * u16 (Fb.height f)) in *.
  destruct (memcpy prev data n) as [prev'|] eqn:M; [|discriminate].
  cbn [bind] in H.
  pose proof (memcpy_length _ _ _ _ (proj1 R) M) as Lp.
  unfold memcpy in M.
  destruct ((n <=? Z.of_nat (length data)) && (n <=? Z.of_nat (length prev))) eqn:G;
    [|discriminate].
  apply andb_true_iff in G. destruct G as [Gd Gp].
  apply Z.leb_le in Gd. apply Z.leb_le in Gp.
  inversion M as [M']. clear M.
  pose proof (assemble_keeps_buffer env (config (this e))
                (u16 (Fb.width f)) (u16 (Fb.height f))
                (u32 (u16 (u16 (Fb.width f) / blockSize (config (this e)))
                      * u16 (u16 (Fb.height f) / blockSize (config (this e)))))
                sc (set_prevFrame (Some prev') (this e))) as K.
  destruct (assemble _ _ _ _ _ _ _) as [[r0 d0] log0].
  cbn [fst snd set_prevFrame prevFrame prevWidth prevHeight] in K.
  destruct K as [Kp [Kw Kh]].
  inversion H; subst r0 e' log0. clear H.
  exists prev'. cbn [this statics].
  split; [|split; [exact Lp|split; [|split; [exact Gd|reflexivity]]]].
  - unfold baseline. rewrite Kp, Kw, Kh, Bw, Bh, !Z.eqb_refl. reflexivity.
  - rewrite <- M'. rewrite firstn_app, firstn_firstn, Nat.min_id.
    rewrite length_firstn.
    replace (Z.to_nat n - Nat.min (Z.to_nat n) (length data))%nat with 0%nat by lia.
    cbn [firstn]. apply app_nil_r.
Qed.

Lemma baseline_follows_the_frame_witness :
  exists r e' log stored,
    detect (at_time 5000) (Some small_frame) small_engine = Ok (r, e', log) /\
    baseline (this e') (u16 8) (u16 8) = Some stored /\
    firstn (Z.to_nat (u16 8 * u16 8)) stored
    = firstn (Z.to_nat (u16 8 * u16 8)) (one_block_frame 8 8 2 1 2 x64).
Proof.
  destruct (detect (at_time 5000) (Some small_frame) small_engine)
    as [[[r e'] log]|] eqn:E; [|vm_compute in E; discriminate].
  assert (Fb.len small_frame <> 0) as Hlen by (vm_compute; discriminate).
  destruct (baseline_follows_the_frame (at_time 5000) small_frame
              (one_block_frame 8 8 2 1 2 x64) small_engine black8 r e' log
              eq_refl Hlen eq_refl eq_refl eq_refl E)
    as [stored [B [_ [F _]]]].
  exists r, e', log, stored. split; [reflexivity|]. split; assumption.
Defined.

(** ** Block sides whose pixel count wraps to a value other than 0 *)

Lemma for_loop_returns {St : Type} (body : Z -> St -> outcome St) :
  forall (n : nat) (i0 : Z) (s0 : St),
    (forall i s, i0 <= i < i0 + Z.of_nat n -> exists s', body i s = Ok s') ->
    exists s', for_loop n i0 body s0 = Ok s'.
Proof.
  intros n i0 s0 Hbody.
  destruct (for_loop_invariant (fun _ _ => True) body n i0 s0 I) as [s' [E _]].
  - intros i s Hi _. destruct (Hbody i s Hi) as [s' E]. exists s'. split; [exact E|exact I].
  - exists s'. exact E.
Qed.

(** With a positive block side and buffers that hold the frame, the pixel
    loops of every block of the grid read inside the buffers, whatever the
    accumulator does. *)
Lemma block_diff_returns cfg w h cur prev bx by_ :
  0 < blockSize cfg -> 0 <= w < 2 ^ 16 -> 0 <= h < 2 ^ 16 ->
  w * h <= Z.of_nat (length cur) -> w * h <= Z.of_nat (length prev) ->
  0 <= bx < w / blockSize cfg -> 0 <= by_ < h / blockSize cfg ->
  exists v, block_diff cfg w cur prev bx by_ = Ok v.
Proof.
  intros Hbs Hw Hh Hcur Hprev Hbx Hby. unfold block_diff.
  apply for_loop_returns. intros py acc Hpy.
  apply for_loop_returns. intros px acc' Hpx.
  rewrite Z2Nat.id in Hpy, Hpx by lia.
  pose proof (block_index_in_frame cfg w h [] [] Hbs Hw Hh bx by_ py px
                Hbx Hby ltac:(lia) ltac:(lia)) as Hi.
  unfold pixel_body. rewrite u32_small by nia.
  rewrite !read_ok by lia. cbn [bind]. eexists. reflexivity.
Qed.

Lemma compare_blocks_returns cfg w h cur prev :
  0 < blockSize cfg -> 0 <= w < 2 ^ 16 -> 0 <= h < 2 ^ 16 ->
  w * h <= Z.of_nat (length cur) -> w * h <= Z.of_nat (length prev) ->
  u16 (blockSize cfg * blockSize cfg) <> 0 ->
  exists sc,
    compare_blocks cfg w cur prev (w / blockSize cfg) (h / blockSize cfg) = Ok sc.
Proof.
  intros Hbs Hw Hh Hcur Hprev Hcount.
  assert (0 <= w / blockSize cfg) as HX by (apply Z.div_pos; lia).
  assert (0 <= h / blockSize cfg) as HY by (apply Z.div_pos; lia).
  unfold compare_blocks.
  apply for_loop_returns. intros by_ st Hby.
  apply for_loop_returns. intros bx st' Hbx.
  rewrite Z2Nat.id in Hby, Hbx by lia.
  destruct (block_diff_returns cfg w h cur prev bx by_ Hbs Hw Hh Hcur Hprev
              ltac:(lia) ltac:(lia)) as [v E].
  unfold block_body. rewrite E. cbn [bind].
  apply Z.eqb_neq in Hcount. rewrite Hcount.
  destruct (threshold cfg <? _); eexists; reflexivity.
Qed.

(** A comparison returns whenever the 16-bit pixel count of a block is not
    0, also when it has wrapped. *)
Lemma detect_returns_with_nonzero_pixel_count env f data e prev :
  Fb.buf f = Some data -> Fb.len f <> 0 ->
  Fb.format f = PIXFORMAT_GRAYSCALE ->
  cooldown_active env (this e) = false ->
  baseline (this e) (u16 (Fb.width f)) (u16 (Fb.height f)) = Some prev ->
  u16 (Fb.width f) * u16 (Fb.height f) <= Z.of_nat (length data) ->
  u16 (Fb.width f) * u16 (Fb.height f) <= Z.of_nat (length prev) ->
  0 < blockSize (config (this e)) ->
  u16 (blockSize (config (this e)) * blockSize (config (this e))) <> 0 ->
  exists r e' log, detect env (Some f) e = Ok (r, e', log).
Proof.
  intros Hb Hl Hf Hc Hbase Hdata Hprev Hbs Hcount.
  pose proof (u16_range (Fb.width f)) as Hw.
  pose proof (u16_range (Fb.height f)) as Hh.
  destruct (compare_blocks_returns (config (this e)) _ _ data prev
              Hbs Hw Hh Hdata Hprev Hcount) as [sc Hsc].
  rewrite (detect_dispatch env f data e Hb Hl Hc), Hf.
  rewrite (detect_grayscale_steps env f data e prev sc
             (firstn (Z.to_nat (u16 (Fb.width f) * u16 (Fb.height f))) data
              ++ skipn (Z.to_nat (u16 (Fb.width f) * u16 (Fb.height f))) prev)).
  - destruct (assemble _ _ _ _ _ _ _) as [[r d'] log].
    do 3 eexists. reflexivity.
  - exact Hbase.
  - lia.
  - rewrite !blocks_u16 by assumption. exact Hsc.
  - rewrite u32_small by (apply frame_size_u32).
    apply memcpy_ok; assumption.
Qed.

(** With [blockSize = 257] the square is 66049, not below 65536, and the
    16-bit pixel count is 513: on a 257 x 257 frame with its baseline
    present the call returns a result; nothing is divided by zero. *)
Lemma blockSize_257_does_not_divide_by_zero :
  65536 <= 257 * 257 /\
  u16 (257 * 257) = 513 /\
  blockSize (config (this odd_block_engine)) = 257 /\
  exists r e' log,
    detect (at_time 5000) (Some (gray_frame 257 257 black257)) odd_block_engine
    = Ok (r, e', log).
Proof.
  split; [discriminate|]. split; [reflexivity|]. split; [reflexivity|].
  assert (Fb.len (gray_frame 257 257 black257) <> 0) as Hlen.
  { cbn [Fb.len gray_frame]. unfold black257.
    rewrite repeat_length, Z2Nat.id by lia. discriminate. }
  assert (u16 257 * u16 257 <= Z.of_nat (length black257)) as Hsz.
  { unfold black257. rewrite repeat_length, Z2Nat.id by lia.
    change (u16 257) with 257. lia. }
  apply (detect_returns_with_nonzero_pixel_count (at_time 5000)
           (gray_frame 257 257 black257) black257 odd_block_engine black257
           eq_refl Hlen eq_refl eq_refl eq_refl Hsz Hsz).
  - reflexivity.
  - discriminate.
Qed.
